(** * Watchtower: the update pass and the HTTP trigger gate

    A shallow embedding of two Go packages of the repository:

    - package [actions] (the update pass: [Update] and its helpers), and
    - package [update] (the HTTP handler in front of it: [New], [Handle]).

    Go's [int] is a 64-bit two's-complement integer; it is modelled as [Z]
    with the wrap-around written out ([GoInt.wrap]).  Calls into the
    container runtime, the lifecycle hooks and the container's own
    methods are effects: they run in a monad that threads the state of
    the outside world and appends one event per call to a trace. *)

From Stdlib Require Import ZArith Lia.
From stdpp Require Import base option list strings gmap.

(** ** Go integers *)

Module GoInt.
Local Open Scope Z_scope.

(** 2^63 and 2^64 *)
Local Abbreviation half := 9223372036854775808.
Local Abbreviation modulus := 18446744073709551616.

Definition wrap (z : Z) : Z := (z + half) mod modulus - half.

Definition add (a b : Z) : Z := wrap (a + b).
Definition sub (a b : Z) : Z := wrap (a - b).

(** [len] of a slice; the Go runtime keeps it within [int]. *)
Definition len {A} (l : list A) : Z := Z.of_nat (length l).
End GoInt.

(** ** Counting in a trace or a slice *)

Fixpoint count {A} (f : A → bool) (l : list A) : nat :=
  match l with
  | [] => 0
  | a :: l' => (if f a then 1 else 0) + count f l'
  end.


(** ** Package actions: the update pass *)

Module actions.

(** Go's [error] values, by their message. *)
Inductive error := Err (msg : string).

(** Modelled from the spec: the container record of package [container],
    which is not among the sources.  The observable attributes are the
    results of its methods [Name()], [ImageID()], [Links()],
    [IsMonitorOnly()], [IsWatchtower()] and [VerifyConfiguration()];
    [Stale] and [LinkedToRestarting] are the two exported fields the pass
    writes.  [Update] assigns [containers[i].Stale] and reads [c.Stale]
    through [ToRestart()], so the type is a struct and a slice of it
    holds the structs themselves. *)
Record Container := {
  Name : string;
  ImageID : string;
  Links : list string;
  IsMonitorOnly : bool;
  IsWatchtower : bool;
  VerifyConfiguration : option error;
  Stale : bool;
  LinkedToRestarting : bool
}.

Definition set_Stale (c : Container) (b : bool) : Container :=
  {| Name := Name c; ImageID := ImageID c; Links := Links c;
     IsMonitorOnly := IsMonitorOnly c; IsWatchtower := IsWatchtower c;
     VerifyConfiguration := VerifyConfiguration c;
     Stale := b; LinkedToRestarting := LinkedToRestarting c |}.

Definition set_LinkedToRestarting (c : Container) (b : bool) : Container :=
  {| Name := Name c; ImageID := ImageID c; Links := Links c;
     IsMonitorOnly := IsMonitorOnly c; IsWatchtower := IsWatchtower c;
     VerifyConfiguration := VerifyConfiguration c;
     Stale := Stale c; LinkedToRestarting := b |}.

(** Modelled from the spec: a container "is to restart" iff
    [stale ∨ linkedToRestarting] (method [ToRestart()] of the container). *)
Definition ToRestart (c : Container) : bool := Stale c || LinkedToRestarting c.

(** [metrics.Metric] *)
Record Metric := { Scanned : Z; Updated : Z; Failed : Z }.

Definition set_Scanned (m : Metric) (z : Z) : Metric :=
  {| Scanned := z; Updated := Updated m; Failed := Failed m |}.
Definition set_Updated (m : Metric) (z : Z) : Metric :=
  {| Scanned := Scanned m; Updated := z; Failed := Failed m |}.
Definition set_Failed (m : Metric) (z : Z) : Metric :=
  {| Scanned := Scanned m; Updated := Updated m; Failed := z |}.

(** [types.UpdateParams]; the filter is opaque to the pass. *)
Record UpdateParams {Filter : Type} := {
  Filter_ : Filter;
  Cleanup : bool;
  NoRestart : bool;
  Timeout : Z;
  MonitorOnly : bool;
  LifecycleHooks : bool;
  RollingRestart : bool
}.
Arguments UpdateParams : clear implicits.

(** One event per call that leaves the pass, with what the call returned. *)
Inductive Event :=
| EvPreChecks
| EvListContainers (containers : list Container) (err : option error)
| EvIsContainerStale (c : Container) (stale : bool) (err : option error)
| EvVerifyConfiguration (c : Container) (err : option error)
| EvPreUpdate (c : Container) (err : option error)
| EvStopContainer (c : Container) (timeout : Z) (err : option error)
| EvRenameContainer (c : Container) (newName : string) (err : option error)
| EvStartContainer (c : Container) (newID : string) (err : option error)
| EvPostUpdate (newID : string)
| EvRemoveImageByID (imageID : string) (err : option error)
| EvPostChecks.

(** *** Reading a trace *)

(** A staleness probe or a configuration verification that errored. *)
Definition classificationFailed (ev : Event) : bool :=
  match ev with
  | EvIsContainerStale _ _ (Some _) => true
  | EvVerifyConfiguration _ (Some _) => true
  | _ => false
  end.

(** A stop step (pre-update hook or stop) or a start that errored. *)
Definition stepFailed (ev : Event) : bool :=
  match ev with
  | EvPreUpdate _ (Some _) => true
  | EvStopContainer _ _ (Some _) => true
  | EvStartContainer _ _ (Some _) => true
  | _ => false
  end.

(** The three kinds of step failure, one by one. *)
Definition preUpdateFailed (ev : Event) : bool :=
  match ev with
  | EvPreUpdate _ (Some _) => true
  | _ => false
  end.

Definition stopFailed (ev : Event) : bool :=
  match ev with
  | EvStopContainer _ _ (Some _) => true
  | _ => false
  end.

Definition startFailed (ev : Event) : bool :=
  match ev with
  | EvStartContainer _ _ (Some _) => true
  | _ => false
  end.

Definition isProbe (ev : Event) : bool :=
  match ev with
  | EvIsContainerStale _ _ _ => true
  | _ => false
  end.

(** The calls of the first half of a pass: pre-checks, listing and
    classification. *)
Definition isScanEvent (ev : Event) : bool :=
  match ev with
  | EvPreChecks | EvListContainers _ _ | EvIsContainerStale _ _ _
  | EvVerifyConfiguration _ _ => true
  | _ => false
  end.

(** The calls of the classification loop. *)
Definition isClassification (ev : Event) : bool :=
  match ev with
  | EvIsContainerStale _ _ _ | EvVerifyConfiguration _ _ => true
  | _ => false
  end.

(** The container handed to the client's stop or start. *)
Definition stoppedOrStarted (ev : Event) : option Container :=
  match ev with
  | EvStopContainer c _ _ => Some c
  | EvStartContainer c _ _ => Some c
  | _ => None
  end.

Definition stopFailedOn (c : Container) (ev : Event) : Prop :=
  ∃ timeout e, ev = EvStopContainer c timeout (Some e).

Definition startAttemptedOn (c : Container) (ev : Event) : Prop :=
  ∃ newID err, ev = EvStartContainer c newID err.

Definition renameFailedOn (c : Container) (ev : Event) : Prop :=
  ∃ newName e, ev = EvRenameContainer c newName (Some e).

Definition imageRemoved (imageID : string) (ev : Event) : Prop :=
  ∃ err, ev = EvRemoveImageByID imageID err.

(** The calls a pass with candidates [cs] can make, each with the
    conditions under which the code reaches it. *)
Inductive passEvent {Filter} (params : UpdateParams Filter) (cs : list Container)
    : Event → Prop :=
| pe_prechecks : passEvent params cs EvPreChecks
| pe_list l e : passEvent params cs (EvListContainers l e)
| pe_probe c stale e : passEvent params cs (EvIsContainerStale c stale e)
| pe_verify c e : passEvent params cs (EvVerifyConfiguration c e)
| pe_pre c e :
    c ∈ cs → ToRestart c = true → IsWatchtower c = false →
    LifecycleHooks params = true →
    passEvent params cs (EvPreUpdate c e)
| pe_stop c e :
    c ∈ cs → ToRestart c = true → IsWatchtower c = false →
    passEvent params cs (EvStopContainer c (Timeout params) e)
| pe_rename c newName e :
    c ∈ cs → ToRestart c = true → IsWatchtower c = true →
    passEvent params cs (EvRenameContainer c newName e)
| pe_start c newID e :
    c ∈ cs → ToRestart c = true → NoRestart params = false →
    passEvent params cs (EvStartContainer c newID e)
| pe_post newID :
    LifecycleHooks params = true →
    passEvent params cs (EvPostUpdate newID)
| pe_remove imageID e :
    Cleanup params = true →
    (∃ c, c ∈ cs ∧ ToRestart c = true ∧ ImageID c = imageID) →
    passEvent params cs (EvRemoveImageByID imageID e)
| pe_postchecks : passEvent params cs EvPostChecks.

Section Pass.
Context {World Filter : Type}.

(** *** The effect monad: world state in, world state and events out *)

Definition M (A : Type) : Type := World → A * World * list Event.

#[export] Instance M_ret : MRet M := λ A a w, (a, w, []).
#[export] Instance M_bind : MBind M := λ A B k m w,
  let '(a, w1, t1) := m w in
  let '(b, w2, t2) := k a w1 in
  (b, w2, t1 ++ t2).

(** [call f ev]: perform the outside call [f] and log it with its result. *)
Definition call {A} (f : World → A * World) (ev : A → Event) : M A :=
  λ w, let '(a, w1) := f w in (a, w1, [ev a]).

(** An outside call that the trace does not record. *)
Definition quiet {A} (f : World → A * World) : M A :=
  λ w, let '(a, w1) := f w in (a, w1, []).

Definition when (b : bool) (m : M ()) : M () := if b then m else mret ().

(** A range loop over a slice that carries state from one iteration to
    the next. *)
Fixpoint foldM {A S} (body : S → A → M S) (l : list A) (s : S) : M S :=
  match l with
  | [] => mret s
  | a :: l' => s' ← body s a; foldM body l' s'
  end.

(** *** The collaborators *)

(** [container.Client]: every operation may read and change the world. *)
Record Client := {
  ListContainers : Filter → World → (list Container * option error) * World;
  IsContainerStale : Container → World → (bool * option error) * World;
  StopContainer : Container → Z → World → option error * World;
  StartContainer : Container → World → (string * option error) * World;
  RenameContainer : Container → string → World → option error * World;
  RemoveImageByID : string → World → option error * World
}.

(** What else the pass calls: the lifecycle hooks, the dependency sorter,
    [util.RandName], and the order in which Go ranges over a map (any
    order of the keys, possibly a different one each time). *)
Record Env := {
  ExecutePreChecks : Client → UpdateParams Filter → World → World;
  ExecutePreUpdateCommand : Client → Container → World → option error * World;
  ExecutePostUpdateCommand : Client → string → World → World;
  ExecutePostChecks : Client → UpdateParams Filter → World → World;
  SortByDependencies : list Container → list Container * option error;
  RandName : World → string * World;
  rangeOrder : gmap string bool → World → list string;
  rangeOrder_perm : ∀ m w, rangeOrder m w ≡ₚ (map_to_list m).*1
}.

Context (env : Env).

(** *** The pass *)

(** Lines 174-180. *)
Definition cleanupImages (client : Client) (imageIDs : gmap string bool) : M () :=
  order ← quiet (λ w, (rangeOrder env imageIDs w, w));
  foldM (λ _ imageID,
           _ ← call (RemoveImageByID client imageID) (EvRemoveImageByID imageID);
           mret ())
        order ().

(** Lines 128-150. *)
Definition stopStaleContainer (container : Container) (client : Client)
    (params : UpdateParams Filter) : M (option error) :=
  if IsWatchtower container then mret None
  else if negb (ToRestart container) then mret None
  else
    err ← (if LifecycleHooks params
           then call (ExecutePreUpdateCommand env client container) (EvPreUpdate container)
           else mret None);
    match err with
    | Some e => mret (Some e)
    | None =>
        call (StopContainer client container (Timeout params))
             (EvStopContainer container (Timeout params))
    end.

(** Lines 182-203. *)
Definition restartStaleContainer (container : Container) (client : Client)
    (params : UpdateParams Filter) : M (option error) :=
  renamed ← (if IsWatchtower container
             then
               newName ← quiet (RandName env);
               call (RenameContainer client container newName)
                    (EvRenameContainer container newName)
             else mret None);
  match renamed with
  | Some _ => mret None
  | None =>
      if negb (NoRestart params) then
        '(newContainerID, err) ← call (StartContainer client container)
                                      (λ r, EvStartContainer container r.1 r.2);
        match err with
        | Some e => mret (Some e)
        | None =>
            _ ← when (ToRestart container && LifecycleHooks params)
                  (call (λ w, ((), ExecutePostUpdateCommand env client newContainerID w))
                        (λ _, EvPostUpdate newContainerID));
            mret None
        end
      else mret None
  end.

Definition countFailure (err : option error) (failed : Z) : Z :=
  match err with
  | Some _ => GoInt.add failed 1
  | None => failed
  end.

(** Lines 118-126: [for i := len(containers) - 1; i >= 0; i--]. *)
Definition stopContainersInReversedOrder (containers : list Container)
    (client : Client) (params : UpdateParams Filter) : M Z :=
  foldM (λ failed c,
           err ← stopStaleContainer c client params;
           mret (countFailure err failed))
        (reverse containers) 0%Z.

(** Lines 157-165, the body of the restart loop. *)
Definition restartBody (client : Client) (params : UpdateParams Filter)
    (st : gmap string bool * Z) (c : Container) : M (gmap string bool * Z) :=
  let '(imageIDs, failed) := st in
  if negb (ToRestart c) then mret (imageIDs, failed)
  else
    err ← restartStaleContainer c client params;
    let failed := countFailure err failed in
    mret (<[ImageID c := true]> imageIDs, failed).

(** Lines 152-172. *)
Definition restartContainersInSortedOrder (containers : list Container)
    (client : Client) (params : UpdateParams Filter) : M Z :=
  '(imageIDs, failed) ← foldM (restartBody client params) containers (∅, 0%Z);
  _ ← when (Cleanup params) (cleanupImages client imageIDs);
  mret failed.

(** Lines 101-109, the body of the rolling loop. *)
Definition rollingBody (client : Client) (params : UpdateParams Filter)
    (st : gmap string bool * Z) (c : Container) : M (gmap string bool * Z) :=
  let '(cleanupImageIDs, failed) := st in
  if ToRestart c then
    err ← stopStaleContainer c client params;
    let failed := countFailure err failed in
    err ← restartStaleContainer c client params;
    let failed := countFailure err failed in
    mret (<[ImageID c := true]> cleanupImageIDs, failed)
  else mret (cleanupImageIDs, failed).

(** Lines 96-116. *)
Definition performRollingRestart (containers : list Container)
    (client : Client) (params : UpdateParams Filter) : M Z :=
  '(cleanupImageIDs, failed) ←
    foldM (rollingBody client params) (reverse containers) (∅, 0%Z);
  _ ← when (Cleanup params) (cleanupImages client cleanupImageIDs);
  mret failed.

(** Lines 214-222: the scan of the candidates for one link name; [true]
    when [break LinkLoop] is reached. *)
Fixpoint candidateLoop (linkName : string) (candidates : list Container) : bool :=
  match candidates with
  | [] => false
  | candidate :: rest =>
      if negb (String.eqb (Name candidate) linkName) then candidateLoop linkName rest
      else if ToRestart candidate then true
      else candidateLoop linkName rest
  end.

(** Lines 212-223: the labelled loop over the links of [c].  [c] is the
    range variable of the outer loop, and the assignment goes to it. *)
Fixpoint linkLoop (c : Container) (links : list string)
    (containers : list Container) : Container :=
  match links with
  | [] => c
  | linkName :: rest =>
      if candidateLoop linkName containers
      then set_LinkedToRestarting c true
      else linkLoop c rest containers
  end.

(** Lines 207-224, one iteration: [c] is a copy of [containers[i]]; the
    result is the copy at the end of the iteration and the slice. *)
Definition checkDependenciesBody (containers : list Container) (c : Container)
    : Container * list Container :=
  if ToRestart c then (c, containers)
  else
    let c := linkLoop c (Links c) containers in
    (c, containers).

(** Lines 205-225.  The range variable goes out of scope at the end of
    each iteration; the slice is what the caller sees. *)
Definition checkDependencies (containers : list Container) : list Container :=
  foldl (λ containers i,
           match containers !! i with
           | Some c => (checkDependenciesBody containers c).2
           | None => containers
           end)
        containers (seq 0 (length containers)).

(** Line 35. *)
Definition shouldUpdate (params : UpdateParams Filter) (stale : bool)
    (targetContainer : Container) : bool :=
  stale && negb (NoRestart params) && negb (MonitorOnly params)
        && negb (IsMonitorOnly targetContainer).

(** What [Update] holds in its local variables. *)
Record Locals := {
  metric : Metric;
  staleCount : Z;
  staleCheckFailed : Z;
  containers : list Container
}.

(** Lines 33-61, the body of the classification loop: [i] and
    [targetContainer] are the range variables, the slice element is
    written through the index.  Lines 40-47 and 51 only write to the log. *)
Definition classifyBody (client : Client) (params : UpdateParams Filter)
    (st : Locals) (it : nat * Container) : M Locals :=
  let '(i, targetContainer) := it in
  '(stale, err) ← call (IsContainerStale client targetContainer)
                       (λ r, EvIsContainerStale targetContainer r.1 r.2);
  err ← (if bool_decide (err = None) && shouldUpdate params stale targetContainer
         then call (λ w, (VerifyConfiguration targetContainer, w))
                   (EvVerifyConfiguration targetContainer)
         else mret err);
  let '(stale, staleCheckFailed, metric) :=
    match err with
    | Some _ => (false, GoInt.add (staleCheckFailed st) 1,
                 set_Failed (metric st) (GoInt.add (Failed (metric st)) 1))
    | None => (stale, staleCheckFailed st, metric st)
    end in
  let containers := alter (λ c, set_Stale c stale) i (containers st) in
  let staleCount := if stale then GoInt.add (staleCount st) 1 else staleCount st in
  mret {| metric := metric; staleCount := staleCount;
          staleCheckFailed := staleCheckFailed; containers := containers |}.

(** Lines 18-61: up to the end of classification. *)
Definition classify (client : Client) (params : UpdateParams Filter)
    : M (error + Locals) :=
  let metric := {| Scanned := 0; Updated := 0; Failed := 0 |} in
  let staleCount := 0%Z in
  _ ← when (LifecycleHooks params)
        (call (λ w, ((), ExecutePreChecks env client params w)) (λ _, EvPreChecks));
  '(containers, err) ← call (ListContainers client (Filter_ params))
                            (λ r, EvListContainers r.1 r.2);
  match err with
  | Some e => mret (inl e)
  | None =>
      let staleCheckFailed := 0%Z in
      st ← foldM (classifyBody client params) (imap pair containers)
             {| metric := metric; staleCount := staleCount;
                staleCheckFailed := staleCheckFailed; containers := containers |};
      mret (inr st)
  end.

(** Lines 72-79. *)
Definition containersToUpdate (params : UpdateParams Filter)
    (containers : list Container) : list Container :=
  if negb (MonitorOnly params)
  then filter (λ c, IsMonitorOnly c = false) containers
  else [].

(** Lines 63-79: sorting, propagation and the choice of candidates. The
    result is the metric, the sorted snapshot and the candidates. *)
Definition order (params : UpdateParams Filter) (st : Locals)
    : error + (Metric * list Container * list Container) :=
  let '(containers, err) := SortByDependencies env (containers st) in
  let metric := set_Scanned (metric st) (GoInt.len containers) in
  match err with
  | Some e => inl e
  | None =>
      let containers := checkDependencies containers in
      inr (metric, containers, containersToUpdate params containers)
  end.

(** Lines 81-93. *)
Definition drive (client : Client) (params : UpdateParams Filter)
    (st : Locals) (metric : Metric) (containersToUpdate : list Container)
    : M Metric :=
  metric ←
    (if RollingRestart params then
       failed ← performRollingRestart containersToUpdate client params;
       mret (set_Failed metric (GoInt.add (Failed metric) failed))
     else
       failed ← stopContainersInReversedOrder containersToUpdate client params;
       let metric := set_Failed metric (GoInt.add (Failed metric) failed) in
       failed ← restartContainersInSortedOrder containersToUpdate client params;
       mret (set_Failed metric (GoInt.add (Failed metric) failed)));
  let metric :=
    set_Updated metric
      (GoInt.sub (staleCount st) (GoInt.sub (Failed metric) (staleCheckFailed st))) in
  _ ← when (LifecycleHooks params)
        (call (λ w, ((), ExecutePostChecks env client params w)) (λ _, EvPostChecks));
  mret metric.

(** Lines 17-94. *)
Definition Update (client : Client) (params : UpdateParams Filter)
    : M (option Metric * option error) :=
  r ← classify client params;
  match r with
  | inl e => mret (None, Some e)
  | inr st =>
      match order params st with
      | inl e => mret (None, Some e)
      | inr (metric, _, containersToUpdate) =>
          metric ← drive client params st metric containersToUpdate;
          mret (Some metric, None)
      end
  end.

End Pass.
End actions.

(** ** Package update: the HTTP trigger and its gate *)

Module update.

Inductive error := Err (msg : string).

(** *** Go channels of [bool] *)

(** A buffered channel: its capacity and the values queued in it. *)
Record Chan := { cap : nat; buf : list bool }.

(** The package state: the channels that exist, and the package-level
    variable [lock] (lines 11-13), which is nil or refers to one of them. *)
Record Globals := { chans : list Chan; lock : option nat }.

(** [make(chan bool, n)]: a new, empty channel. *)
Definition make (n : nat) (g : Globals) : nat * Globals :=
  (length (chans g),
   {| chans := chans g ++ [{| cap := n; buf := [] |}]; lock := lock g |}).

(** [ch <- v] when it can proceed; [None] when the sender has to wait
    (the buffer is full, or [ch] is not a channel). *)
Definition trySend (ch : nat) (v : bool) (g : Globals) : option Globals :=
  c ← chans g !! ch;
  if decide (length (buf c) < cap c)
  then Some {| chans := <[ch := {| cap := cap c; buf := buf c ++ [v] |}]> (chans g);
               lock := lock g |}
  else None.

(** [<-ch] when a value is queued; [None] when the receiver has to wait. *)
Definition tryRecv (ch : nat) (g : Globals) : option (bool * Globals) :=
  c ← chans g !! ch;
  match buf c with
  | v :: rest =>
      Some (v, {| chans := <[ch := {| cap := cap c; buf := rest |}]> (chans g);
                  lock := lock g |})
  | [] => None
  end.

(** *** [http.ResponseWriter] *)

(** The status line is fixed by the first of [WriteHeader] and [Write]:
    [Write] sends status 200 if no header went out before, and a
    [WriteHeader] after that is superfluous and ignored. *)
Record Response := { status : option nat; body : string }.

Definition Write (s : string) (w : Response) : Response :=
  {| status := Some (default 200 (status w)); body := body w +:+ s |}.

Definition WriteHeader (code : nat) (w : Response) : Response :=
  match status w with
  | Some _ => w
  | None => {| status := Some code; body := body w |}
  end.

Definition StatusBadRequest : nat := 400.

(** [fmt.Fprintln(w, s)] *)
Definition Fprintln (s : string) (w : Response) : Response :=
  Write (s +:+ String (Ascii.ascii_of_nat 10) EmptyString) w.

(** The status the client sees once the handler has returned. *)
Definition sentStatus (w : Response) : nat := default 200 (status w).

(** *** The handler *)

(** Lines 36-39. *)
Record UpdateRequestBody := { AiDriverTag : string; DaemonTag : string }.

(** How a call of the update function ends. *)
Inductive Outcome := Returned | Panicked.

Section Handler.
Context {World : Type}.

(** Lines 31-34.  The update function works on the world outside the
    package and may panic. *)
Record Handler := {
  fn : gmap string string → World → Outcome * World;
  Path : string
}.

(** Lines 16-28.  The send of line 21 is on the channel just made. *)
Definition New (updateFn : gmap string string → World → Outcome * World)
    (updateLock : option nat) (g : Globals) : option (Handler * Globals) :=
  g ← match updateLock with
      | Some ch => Some {| chans := chans g; lock := Some ch |}
      | None =>
          let '(ch, g) := make 1 g in
          let g := {| chans := chans g; lock := Some ch |} in
          trySend ch true g
      end;
  Some ({| fn := updateFn; Path := "/v1/update" |}, g).

(** How an invocation of [Handle] has ended. *)
Inductive Finish := Rejected | Skipped | Ran | PanickedIn.

(** Where an invocation of [Handle] stands. *)
Inductive Pc :=
| AtDecode (reqBody : string)                          (* line 46 *)
| AtSelect (containerImageTags : gmap string string)   (* line 58 *)
| Running (chanValue : bool) (containerImageTags : gmap string string)
                                                       (* line 61 *)
| Releasing (chanValue : bool) (o : Outcome)           (* line 60, deferred *)
| Done (f : Finish).

(** One invocation: its handler, its response writer and where it stands. *)
Record Thread := { handler : Handler; w : Response; pc : Pc }.

Definition at_ (t : Thread) (p : Pc) : Thread :=
  {| handler := handler t; w := w t; pc := p |}.

(** [json.NewDecoder(r.Body).Decode(&urb)] is a parameter. *)
Context (decode : string → error + UpdateRequestBody).

(** Lines 42-66, one step of one invocation; [None] when it has returned
    or has to wait. *)
Definition step1 (t : Thread) (sh : Globals * World)
    : option (Thread * (Globals * World)) :=
  let '(g, world) := sh in
  match pc t with
  | AtDecode reqBody =>
      match decode reqBody with
      | inl err =>
          let w := Fprintln "Failed to load request body" (w t) in
          let w := WriteHeader StatusBadRequest w in
          Some ({| handler := handler t; w := w; pc := Done Rejected |}, sh)
      | inr urb =>
          let containerImageTags : gmap string string :=
            <["daemon" := DaemonTag urb]> (<["aidriver" := AiDriverTag urb]> ∅) in
          Some (at_ t (AtSelect containerImageTags), sh)
      end
  | AtSelect containerImageTags =>
      match lock g ≫= λ ch, tryRecv ch g with
      | Some (chanValue, g) => Some (at_ t (Running chanValue containerImageTags), (g, world))
      | None => Some (at_ t (Done Skipped), sh)
      end
  | Running chanValue containerImageTags =>
      let '(o, world) := fn (handler t) containerImageTags world in
      Some (at_ t (Releasing chanValue o), (g, world))
  | Releasing chanValue o =>
      g ← lock g ≫= λ ch, trySend ch chanValue g;
      Some (at_ t (Done (match o with Returned => Ran | Panicked => PanickedIn end)),
            (g, world))
  | Done _ => None
  end.

(** An invocation that runs alone: step until it has returned or waits. *)
Fixpoint run (fuel : nat) (t : Thread) (sh : Globals * World)
    : Thread * (Globals * World) :=
  match fuel with
  | 0 => (t, sh)
  | S fuel =>
      match step1 t sh with
      | Some (t, sh) => run fuel t sh
      | None => (t, sh)
      end
  end.

(** Lines 42-66 for an invocation that is not interleaved with others. *)
Definition Handle (handle : Handler) (w : Response) (reqBody : string)
    (sh : Globals * World) : Thread * (Globals * World) :=
  run 4 {| handler := handle; w := w; pc := AtDecode reqBody |} sh.

(** Invocations that run concurrently: any one of them takes a step. *)
Record System := { shared : Globals * World; threads : list Thread }.

Inductive step : System → System → Prop :=
| step_thread s i t t' sh' :
    threads s !! i = Some t →
    step1 t (shared s) = Some (t', sh') →
    step s {| shared := sh'; threads := <[i := t']> (threads s) |}.

Definition isRunning (t : Thread) : bool :=
  match pc t with Running _ _ => true | _ => false end.

Definition isReleasing (t : Thread) : bool :=
  match pc t with Releasing _ _ => true | _ => false end.

Definition isStarting (t : Thread) : bool :=
  match pc t with AtDecode _ => true | _ => false end.

(** The values queued in the gate. *)
Definition tokens (g : Globals) : list bool :=
  match lock g ≫= λ ch, chans g !! ch with
  | Some c => buf c
  | None => []
  end.

End Handler.
End update.

(** ** Concrete passes *)

Module Scenarios.
Import actions.

Definition container (name image : string) (links : list string) : Container :=
  {| Name := name; ImageID := image; Links := links; IsMonitorOnly := false;
     IsWatchtower := false; VerifyConfiguration := None;
     Stale := false; LinkedToRestarting := false |}.

(** A client without state: it lists [snapshot], reports the containers
    named in [staleNames] as stale, and answers every stop with [stopErr]
    and every start with [startErr]. *)
Definition scriptedClient (snapshot : list Container) (staleNames : list string)
    (stopErr startErr : option error) : @Client unit unit :=
  {| ListContainers _ w := ((snapshot, None), w);
     IsContainerStale c w := ((bool_decide (Name c ∈ staleNames), None), w);
     StopContainer _ _ w := (stopErr, w);
     StartContainer c w :=
       (match startErr with
        | Some e => (EmptyString, Some e)
        | None => (("new-" +:+ Name c)%string, None)
        end, w);
     RenameContainer _ _ w := (None, w);
     RemoveImageByID _ w := (None, w) |}.

(** Hooks that do nothing, a sorter that keeps the order and reports
    [sortErr], and map ranging in the order of [map_to_list]. *)
Definition plainEnv (sortErr : option error) : @Env unit unit :=
  {| ExecutePreChecks _ _ w := w;
     ExecutePreUpdateCommand _ _ w := (None, w);
     ExecutePostUpdateCommand _ _ w := w;
     ExecutePostChecks _ _ w := w;
     SortByDependencies cs := (cs, sortErr);
     RandName w := ("renamed"%string, w);
     rangeOrder m _ := (map_to_list m).*1;
     rangeOrder_perm := λ _ _, Permutation_refl _ |}.

Definition params (cleanup noRestart rolling : bool) : UpdateParams unit :=
  {| Filter_ := (); Cleanup := cleanup; NoRestart := noRestart; Timeout := 10;
     MonitorOnly := false; LifecycleHooks := false; RollingRestart := rolling |}.

Definition A : Container := container "A" "img-a" [].
Definition B : Container := container "B" "img-b" ["A"%string].

(** [A] and [B] once classification has marked them. *)
Definition staleA : Container := set_Stale A true.

(** A stale container that is only to be monitored. *)
Definition Mon : Container :=
  {| Name := "Mon"; ImageID := "img-m"; Links := []; IsMonitorOnly := true;
     IsWatchtower := false; VerifyConfiguration := None;
     Stale := false; LinkedToRestarting := false |}.

Definition staleMon : Container := set_Stale Mon true.

Definition twoPhase : UpdateParams unit := params false false false.
Definition rolling : UpdateParams unit := params false false true.
Definition withCleanup : UpdateParams unit := params true false false.
Definition noRestartWithCleanup : UpdateParams unit := params true true false.

(** [A] is stale, [B] links to [A]; nothing fails. *)
Definition linkedClient : @Client unit unit :=
  scriptedClient [A; B] ["A"%string] None None.

Definition linkedPass := Update (plainEnv None) linkedClient twoPhase ().

(** [A] and [Mon] are stale, cleanup is on; nothing fails. *)
Definition monitoredClient : @Client unit unit :=
  scriptedClient [A; Mon] ["A"%string; "Mon"%string] None None.

Definition monitoredPass := Update (plainEnv None) monitoredClient withCleanup ().

(** [A] is stale; its stop and its start both fail. *)
Definition failingClient : @Client unit unit :=
  scriptedClient [A] ["A"%string] (Some (Err "stop")) (Some (Err "start")).

Definition failingPass := Update (plainEnv None) failingClient twoPhase ().
Definition failingRollingPass := Update (plainEnv None) failingClient rolling ().

(** [A] is stale; restarts are off, cleanup is on. *)
Definition staleClient : @Client unit unit :=
  scriptedClient [A] ["A"%string] None None.

Definition noRestartPass :=
  Update (plainEnv None) staleClient noRestartWithCleanup ().

(** The sorter reports a cycle. *)
Definition cyclePass :=
  Update (plainEnv (Some (Err "cycle"))) linkedClient twoPhase ().

(** The whole pass is only to monitor. *)
Definition monitorOnly : UpdateParams unit :=
  {| Filter_ := (); Cleanup := true; NoRestart := false; Timeout := 10;
     MonitorOnly := true; LifecycleHooks := false; RollingRestart := false |}.

Definition watchingPass := Update (plainEnv None) staleClient monitorOnly ().

(** Nothing is stale. *)
Definition freshClient : @Client unit unit := scriptedClient [A; B] [] None None.

Definition quietPass := Update (plainEnv None) freshClient withCleanup ().

(** The listing fails. *)
Definition unlistableClient : @Client unit unit :=
  {| ListContainers _ w := (([], Some (Err "no daemon")), w);
     IsContainerStale c w := ((true, None), w);
     StopContainer _ _ w := (None, w);
     StartContainer c w := (("new"%string, None), w);
     RenameContainer _ _ w := (None, w);
     RemoveImageByID _ w := (None, w) |}.

Definition unlistedPass := Update (plainEnv None) unlistableClient twoPhase ().

(** [A] and [A2] run the same image and are both stale; [C] links to both. *)
Definition A2 : Container := container "A2" "img-a" [].
Definition C : Container := container "C" "img-c" ["A"%string; "A2"%string].

Definition sharedImageClient : @Client unit unit :=
  scriptedClient [A; A2; C] ["A"%string; "A2"%string; "C"%string] None None.

Definition sharedImagePass := Update (plainEnv None) sharedImageClient withCleanup ().

(** The lifecycle hooks are on. *)
Definition withHooks : UpdateParams unit :=
  {| Filter_ := (); Cleanup := false; NoRestart := false; Timeout := 10;
     MonitorOnly := false; LifecycleHooks := true; RollingRestart := false |}.

Definition hookedPass := Update (plainEnv None) staleClient withHooks ().

(** The orchestrator's own container, stale, and a client that cannot
    rename it. *)
Definition self : Container :=
  {| Name := "watchtower"; ImageID := "img-w"; Links := []; IsMonitorOnly := false;
     IsWatchtower := true; VerifyConfiguration := None;
     Stale := true; LinkedToRestarting := false |}.

Definition noRenameClient : @Client unit unit :=
  {| ListContainers _ w := (([self], None), w);
     IsContainerStale c w := ((true, None), w);
     StopContainer _ _ w := (None, w);
     StartContainer c w := (("new"%string, None), w);
     RenameContainer _ _ w := (Some (Err "name in use"), w);
     RemoveImageByID _ w := (None, w) |}.

(** An environment whose pre-update hook fails. *)
Definition failingHookEnv : @Env unit unit :=
  {| ExecutePreChecks _ _ w := w;
     ExecutePreUpdateCommand _ _ w := (Some (Err "hook failed"), w);
     ExecutePostUpdateCommand _ _ w := w;
     ExecutePostChecks _ _ w := w;
     SortByDependencies cs := (cs, None);
     RandName w := ("renamed"%string, w);
     rangeOrder m _ := (map_to_list m).*1;
     rangeOrder_perm := λ _ _, Permutation_refl _ |}.
Definition sharedImageRollingPass :=
  Update (plainEnv None) sharedImageClient (params true false true) ().

End Scenarios.

(** ** Concrete requests *)

Module Requests.
Import update.

(** A decoder that accepts the empty JSON object, which leaves both tags
    empty, and rejects every other body. *)
Definition decodeTags (reqBody : string) : error + UpdateRequestBody :=
  if String.eqb reqBody "{}"
  then inr {| AiDriverTag := EmptyString; DaemonTag := EmptyString |}
  else inl (Err "invalid character").

(** An update function that counts its calls. *)
Definition countCalls (_ : gmap string string) (calls : nat) : Outcome * nat :=
  (Returned, S calls).

Definition fresh : Response := {| status := None; body := EmptyString |}.

(** The package before any call of [New]. *)
Definition initial : Globals := {| chans := []; lock := None |}.

(** A gate with its token, as [New] makes it when given no channel. *)
Definition idle : Globals := {| chans := [{| cap := 1; buf := [true] |}]; lock := Some 0 |}.

(** The same gate while a pass holds the token. *)
Definition busy : Globals := {| chans := [{| cap := 1; buf := [] |}]; lock := Some 0 |}.

Definition theHandler : @Handler nat := {| fn := countCalls; Path := "/v1/update" |}.

End Requests.

Module Racing.
Import update Requests.

Definition arriving : @Thread nat :=
  {| handler := theHandler; w := fresh; pc := AtDecode "{}" |}.

Definition noTags : gmap string string :=
  <["daemon" := EmptyString]> (<["aidriver" := EmptyString]> ∅).

(** Two requests arrive while the gate is idle. *)
Definition arrived : @System nat :=
  {| shared := (idle, 0); threads := [arriving; arriving] |}.

(** The first has taken the token and is inside the update function, the
    second has decoded its body and is about to look at the gate. *)
Definition racing : @System nat :=
  {| shared := (busy, 0);
     threads := [at_ arriving (Running true noTags); at_ arriving (AtSelect noTags)] |}.

End Racing.

(** ** More ways to read a trace *)

Module observe.
Import actions.

(** The containers handed to the client's stop, in the order of the calls. *)
Definition stops (tr : list Event) : list Container :=
  omap (λ ev, match ev with EvStopContainer c _ _ => Some c | _ => None end) tr.

(** The containers handed to the client's start, in the order of the calls. *)
Definition starts (tr : list Event) : list Container :=
  omap (λ ev, match ev with EvStartContainer c _ _ => Some c | _ => None end) tr.

(** The image IDs handed to the client's removal, in the order of the calls. *)
Definition removals (tr : list Event) : list string :=
  omap (λ ev, match ev with EvRemoveImageByID i _ => Some i | _ => None end) tr.

(** The containers probed for staleness, in the order of the calls. *)
Definition probes (tr : list Event) : list Container :=
  omap (λ ev, match ev with EvIsContainerStale c _ _ => Some c | _ => None end) tr.

(** The results of the listings. *)
Definition listings (tr : list Event) : list (list Container * option error) :=
  omap (λ ev, match ev with EvListContainers l e => Some (l, e) | _ => None end) tr.

(** A call of a lifecycle hook. *)
Definition isHook (ev : Event) : bool :=
  match ev with
  | EvPreChecks | EvPreUpdate _ _ | EvPostUpdate _ | EvPostChecks => true
  | _ => false
  end.

(** A call that acts on a container or an image: pre-update hook, stop,
    rename, start, and image removal. *)
Definition isAction (ev : Event) : bool :=
  match ev with
  | EvPreUpdate _ _ | EvStopContainer _ _ _ | EvRenameContainer _ _ _
  | EvStartContainer _ _ _ | EvPostUpdate _ | EvRemoveImageByID _ _ => true
  | _ => false
  end.

(** The IDs handed to the post-update hook, and the IDs that successful
    starts returned, in the order of the calls. *)
Definition postUpdates (tr : list Event) : list string :=
  omap (λ ev, match ev with EvPostUpdate newID => Some newID | _ => None end) tr.

Definition startedIDs (tr : list Event) : list string :=
  omap (λ ev, match ev with
              | EvStartContainer _ newID None => Some newID
              | _ => None
              end) tr.

(** The pre-checks, the listing, the classification and the post-checks
    happen outside the stop and restart loops. *)
Definition isOutsideLoops (ev : Event) : bool :=
  match ev with
  | EvPreChecks | EvListContainers _ _ | EvIsContainerStale _ _ _
  | EvVerifyConfiguration _ _ | EvPostChecks => true
  | _ => false
  end.

(** What a stretch of the stop and restart loops may call, when its stops
    are to come from [Ls] and its starts from [Lt], in that order. *)
Definition calls {Filter} (params : UpdateParams Filter)
    (Ls Lt : list Container) (tr : list Event) : Prop :=
  stops tr `sublist_of` Ls ∧
  starts tr `sublist_of` Lt ∧
  postUpdates tr `sublist_of` startedIDs tr ∧
  Forall (λ ev, isOutsideLoops ev = false) tr ∧
  (LifecycleHooks params = false → Forall (λ ev, isHook ev = false) tr).

End observe.

(** * Facts *)

(** ** Go integers: wrap-around is a ring homomorphism *)

Module GoIntFacts.
  Import GoInt.
  Local Open Scope Z_scope.
  Local Abbreviation half := 9223372036854775808.
  Local Abbreviation modulus := 18446744073709551616.

Lemma wrap_small z : - half <= z < half -> wrap z = z.
  Proof. intros H. unfold wrap. rewrite Z.mod_small; lia. Qed.

Lemma wrap_range z : - half <= wrap z < half.
  Proof.
    unfold wrap. pose proof (Z.mod_pos_bound (z + half) modulus). lia.
  Qed.

Lemma wrap_add_l a b : wrap (wrap a + b) = wrap (a + b).
  Proof.
    unfold wrap.
    replace ((a + half) mod modulus - half + b + half)
      with ((a + half) mod modulus + b) by lia.
    rewrite Zplus_mod_idemp_l. f_equal. f_equal. lia.
  Qed.

Lemma wrap_add_r a b : wrap (a + wrap b) = wrap (a + b).
  Proof. rewrite (Z.add_comm a), wrap_add_l. f_equal. lia. Qed.

Lemma wrap_add_mid a b c : wrap (a + wrap b + c) = wrap (a + b + c).
Proof.
  replace (a + wrap b + c) with (wrap b + (a + c)) by lia.
  rewrite wrap_add_l. f_equal. lia.
Qed.

Lemma wrap_sub_l a b : wrap (wrap a - b) = wrap (a - b).
  Proof. unfold Z.sub. apply wrap_add_l. Qed.

Lemma wrap_sub_r a b : wrap (a - wrap b) = wrap (a - b).
  Proof.
    unfold wrap.
    replace (a - ((b + half) mod modulus - half) + half)
      with ((a + modulus) - (b + half) mod modulus) by lia.
    rewrite Zminus_mod_idemp_r. f_equal. f_equal. lia.
  Qed.
End GoIntFacts.

(** ** Counting *)

Module CountFacts.
Lemma count_app {A} (f : A → bool) (l1 l2 : list A) :
  count f (l1 ++ l2) = count f l1 + count f l2.
Proof. induction l1 as [|a l1 IH]; simpl; [done|]. rewrite IH. lia. Qed.

Lemma count_le_length {A} (f : A → bool) (l : list A) : count f l ≤ length l.
Proof. induction l as [|a l IH]; simpl; [lia|]. destruct (f a); lia. Qed.

Lemma count_disjoint {A} (f g : A → bool) (l : list A) :
  (∀ a, f a = true → g a = false) →
  count f l + count g l ≤ length l.
Proof.
  intros Hfg. induction l as [|a l IH]; simpl; [lia|].
  destruct (f a) eqn:Hf; [rewrite (Hfg a Hf)|destruct (g a)]; lia.
Qed.

Lemma count_zero {A} (f : A → bool) (l : list A) :
  Forall (λ a, f a = false) l → count f l = 0.
Proof. induction 1 as [|a l Ha _ IH]; simpl; [done|]. by rewrite Ha, IH. Qed.


Lemma count_insert {A} (f : A → bool) (l : list A) (i : nat) (a b : A) :
  l !! i = Some a →
  count f (<[i := b]> l) + (if f a then 1 else 0)
  = count f l + (if f b then 1 else 0).
Proof.
  revert i. induction l as [|x l IH]; intros [|i] Hi; simplify_eq/=.
  - lia.
  - specialize (IH i Hi). lia.
Qed.

Lemma count_lookup {A} (f : A → bool) (l : list A) (i : nat) (a : A) :
  l !! i = Some a → f a = true → 1 ≤ count f l.
Proof.
  revert i. induction l as [|x l IH]; intros [|i] Hi Hf; simplify_eq/=.
  - rewrite Hf. lia.
  - specialize (IH i Hi Hf). lia.
Qed.
End CountFacts.

(** ** The update pass *)

Module actions_facts.
Import GoInt GoIntFacts CountFacts actions.

(** The facts below use [wrap] through its lemmas only. *)
#[local] Opaque wrap.

Section Pass.
Context {World Filter : Type} (env : @Env World Filter).

Implicit Types (w : World) (tr : list Event) (c : Container)
  (client : @Client World Filter) (params : UpdateParams Filter).

(** *** Running the monad *)

Lemma bind_run {A B} (m : M A) (k : A → M B) w b w2 t :
  (m ≫= k) w = (b, w2, t) →
  ∃ a w1 t1 t2, m w = (a, w1, t1) ∧ k a w1 = (b, w2, t2) ∧ t = t1 ++ t2.
Proof.
  unfold mbind, M_bind. destruct (m w) as [[a w1] t1].
  destruct (k a w1) as [[b' w2'] t2] eqn:Hk. intros [= <- <- <-].
  by exists a, w1, t1, t2.
Qed.

Lemma ret_run {A} (a : A) w b w' t :
  (mret a : M A) w = (b, w', t) → b = a ∧ w' = w ∧ t = [].
Proof. by intros [= <- <- <-]. Qed.

Lemma call_run {A} (f : World → A * World) (ev : A → Event) w a w' t :
  call f ev w = (a, w', t) → f w = (a, w') ∧ t = [ev a].
Proof. unfold call. destruct (f w) as [a' w1]. by intros [= <- <- <-]. Qed.

Lemma quiet_run {A} (f : World → A * World) w a w' t :
  quiet f w = (a, w', t) → f w = (a, w') ∧ t = [].
Proof. unfold quiet. destruct (f w) as [a' w1]. by intros [= <- <- <-]. Qed.

Lemma when_run (b : bool) (m : M ()) w u w' t :
  when b m w = (u, w', t) →
  (b = true ∧ m w = (u, w', t)) ∨ (b = false ∧ w' = w ∧ t = []).
Proof.
  destruct b; simpl; [by left|]. intros [= <- <- <-]. by right.
Qed.

(** A loop invariant over the processed prefix, the carried state and the
    events so far. *)
Lemma foldM_inv {A S} (body : S → A → M S)
    (Inv : list A → S → list Event → Prop) (l0 : list A) :
  (∀ done a rest s tr w s' w' tr',
     l0 = done ++ a :: rest → Inv done s tr →
     body s a w = (s', w', tr') → Inv (done ++ [a]) s' (tr ++ tr')) →
  ∀ s0 w s' w' tr',
    Inv [] s0 [] → foldM body l0 s0 w = (s', w', tr') → Inv l0 s' tr'.
Proof.
  intros Hstep.
  assert (∀ rest done s tr w s' w' tr',
            l0 = done ++ rest → Inv done s tr →
            foldM body rest s w = (s', w', tr') → Inv l0 s' (tr ++ tr')) as Hgen.
  { induction rest as [|a rest IH]; intros done s tr w s' w' tr' Hl HI Hrun.
    - apply ret_run in Hrun as (-> & _ & ->).
      rewrite !app_nil_r in *. by subst.
    - simpl in Hrun. apply bind_run in Hrun as (s1 & w1 & t1 & t2 & Hb & Hr & ->).
      rewrite app_assoc. eapply (IH (done ++ [a])); [|by eapply Hstep|done].
      by rewrite <- app_assoc. }
  intros s0 w s' w' tr' HI Hrun. by apply (Hgen l0 [] s0 [] w s' w' tr').
Qed.

(** Decompose a run of monadic code into the runs of its calls. *)
Ltac run_inv :=
  repeat match goal with
  | H : (_ ≫= _) _ = (_, _, _) |- _ =>
      apply bind_run in H as (? & ? & ? & ? & ? & H & ->)
  | H : mret _ _ = (_, _, _) |- _ => apply ret_run in H as (? & ? & ?); simplify_eq
  | H : call _ _ _ = (_, _, _) |- _ => apply call_run in H as (H & ->)
  | H : quiet _ _ = (_, _, _) |- _ => apply quiet_run in H as (H & ->)
  end.

(** *** The calls a pass can make *)

Lemma passEvent_mono params (cs cs' : list Container) ev :
  (∀ c, c ∈ cs → c ∈ cs') → passEvent params cs ev → passEvent params cs' ev.
Proof.
  intros Hsub Hev. destruct Hev; try by constructor; auto.
  constructor; [done|]. destruct H0 as (c & ? & ? & ?). exists c. auto.
Qed.

Lemma driven_mono params (cs cs' : list Container) tr :
  (∀ c, c ∈ cs → c ∈ cs') →
  Forall (λ ev, passEvent params cs ev ∧ isScanEvent ev = false) tr →
  Forall (λ ev, passEvent params cs' ev ∧ isScanEvent ev = false) tr.
Proof.
  intros Hsub H. eapply Forall_impl; [exact H|]. intros ev [? ?].
  split; [by eapply passEvent_mono|done].
Qed.

Lemma driven_not_classification tr :
  Forall (λ ev, isScanEvent ev = false) tr →
  count classificationFailed tr = 0 ∧ count isProbe tr = 0.
Proof.
  intros H. split; apply count_zero; eapply Forall_impl; try exact H;
    intros [] ?; simpl in *; try done; by repeat case_match.
Qed.

Lemma scan_not_step tr :
  Forall (λ ev, isScanEvent ev = true) tr → count stepFailed tr = 0.
Proof.
  intros H. apply count_zero. eapply Forall_impl; [exact H|].
  intros [] ?; simpl in *; try done; by repeat case_match.
Qed.

(** *** One container: the stop step and the restart step *)

Lemma stopStaleContainer_spec c client params w err w' tr :
  stopStaleContainer env c client params w = (err, w', tr) →
  count stepFailed tr = (if err is Some _ then 1 else 0) ∧
  count stepFailed tr ≤ (if ToRestart c then 1 else 0) ∧
  (∀ cs, c ∈ cs →
     Forall (λ ev, passEvent params cs ev ∧ isScanEvent ev = false) tr).
Proof.
  unfold stopStaleContainer. intros Hrun.
  destruct (IsWatchtower c) eqn:Hw.
  { run_inv. simpl. repeat split; [case_match; lia|constructor]. }
  destruct (ToRestart c) eqn:Hr; simpl in Hrun.
  2: { run_inv. simpl. repeat split; [lia|constructor]. }
  apply bind_run in Hrun as (e1 & w1 & t1 & t2 & Hpre & Hrun & ->).
  assert (count stepFailed t1 = (if e1 is Some _ then 1 else 0) ∧
          ∀ cs, c ∈ cs →
            Forall (λ ev, passEvent params cs ev ∧ isScanEvent ev = false) t1)
    as [Hc1 Hf1].
  { destruct (LifecycleHooks params) eqn:Hh; run_inv; simpl.
    - split; [destruct e1; lia|]. intros cs Hin. repeat constructor; auto.
    - split; [done|]. constructor. }
  rewrite count_app, Hc1. destruct e1 as [e1|]; run_inv; simpl.
  - rewrite app_nil_r. repeat split; [lia|auto].
  - repeat split; [destruct err; lia..|].
    intros cs Hin. apply Forall_app. split; [auto|]. repeat constructor; auto.
Qed.

Lemma restartStaleContainer_spec c client params w err w' tr :
  restartStaleContainer env c client params w = (err, w', tr) →
  count stepFailed tr = (if err is Some _ then 1 else 0) ∧
  (∀ cs, c ∈ cs → ToRestart c = true →
     Forall (λ ev, passEvent params cs ev ∧ isScanEvent ev = false) tr) ∧
  (NoRestart params = false →
     Exists (startAttemptedOn c) tr ∨ Exists (renameFailedOn c) tr) ∧
  (NoRestart params = false → IsWatchtower c = false →
     Exists (startAttemptedOn c) tr).
Proof.
  unfold restartStaleContainer. intros Hrun.
  apply bind_run in Hrun as (renamed & w1 & t1 & t2 & Hren & Hrun & ->).
  assert (count stepFailed t1 = 0 ∧
          (∀ cs, c ∈ cs → ToRestart c = true →
             Forall (λ ev, passEvent params cs ev ∧ isScanEvent ev = false) t1) ∧
          (∀ e, renamed = Some e → Exists (renameFailedOn c) t1)) as (Hc1 & Hf1 & Hr1).
  { destruct (IsWatchtower c) eqn:Hw; run_inv; simpl.
    - repeat split; [intros; repeat constructor; auto|].
      intros e ->. constructor. by eexists _, _.
    - repeat split; [by constructor|done]. }
  rewrite count_app, Hc1.
  destruct renamed as [e|].
  { run_inv. rewrite app_nil_r. split_and!; [done|auto|..].
    - intros _. right. eauto.
    - intros _ Hw. rewrite Hw in Hren. by run_inv. }
  destruct (NoRestart params) eqn:Hn; simpl in Hrun.
  { run_inv. rewrite app_nil_r. split_and!; [done|auto|done..]. }
  apply bind_run in Hrun as ([newID e] & w2 & t3 & t4 & Hstart & Hrun & ->).
  apply call_run in Hstart as (Hstart & ->). simpl in Hrun.
  assert (Exists (startAttemptedOn c) (t1 ++ [EvStartContainer c newID e] ++ t4)).
  { apply Exists_app. right. constructor. by eexists _, _. }
  assert (∀ cs, c ∈ cs → ToRestart c = true →
            passEvent params cs (EvStartContainer c newID e)) as Hstartev.
  { intros. by constructor. }
  destruct e as [e|].
  { run_inv. simpl. split_and!; [lia| |auto..].
    intros cs Hin Hr. apply Forall_app. split; [auto|]. repeat constructor; auto. }
  apply bind_run in Hrun as (u & w3 & t5 & t6 & Hpost & Hrun & ->).
  apply when_run in Hpost as [(Hb & Hpost)|(Hb & -> & ->)]; run_inv; simpl.
  - split_and!; [lia| |auto..].
    intros cs Hin Hr. apply Forall_app. split; [auto|].
    apply andb_true_iff in Hb as [_ Hh]. repeat constructor; auto.
  - split_and!; [lia| |auto..].
    intros cs Hin Hr. apply Forall_app. split; [auto|]. repeat constructor; auto.
Qed.

(** *** Failure counters *)

Lemma countFailure_wrap (err : option error) (n : nat) :
  countFailure err (wrap (Z.of_nat n))
  = wrap (Z.of_nat (n + (if err is Some _ then 1 else 0))).
Proof.
  destruct err; simpl; [|by rewrite Nat.add_0_r].
  unfold add. rewrite wrap_add_l. f_equal. lia.
Qed.

Lemma count_reverse {A} (f : A → bool) (l : list A) :
  count f (reverse l) = count f l.
Proof.
  induction l as [|a l IH]; [done|].
  rewrite reverse_cons, count_app, IH. simpl. lia.
Qed.

(** *** Image cleanup *)

Lemma remove_loop_spec client (l : list string) w u w' tr :
  foldM (λ _ imageID,
           _ ← call (RemoveImageByID client imageID) (EvRemoveImageByID imageID);
           mret ()) l () w = (u, w', tr) →
  Forall2 imageRemoved l tr.
Proof.
  revert w u w' tr. induction l as [|id l IH]; intros w u w' tr Hrun; simpl in Hrun.
  - run_inv. constructor.
  - run_inv. simpl. constructor; [by eexists|]. eauto.
Qed.

Lemma cleanupImages_spec client (imageIDs : gmap string bool) w u w' tr :
  cleanupImages env client imageIDs w = (u, w', tr) →
  Forall (λ ev, ∃ imageID, imageRemoved imageID ev ∧ is_Some (imageIDs !! imageID)) tr ∧
  (∀ imageID, is_Some (imageIDs !! imageID) → Exists (imageRemoved imageID) tr).
Proof.
  unfold cleanupImages. intros Hrun.
  apply bind_run in Hrun as (order & w1 & t1 & t2 & Hord & Hrun & ->).
  apply quiet_run in Hord as (Hord & ->). injection Hord as <- <-. simpl.
  apply remove_loop_spec in Hrun.
  assert (∀ imageID, imageID ∈ rangeOrder env imageIDs w ↔ is_Some (imageIDs !! imageID))
    as Hkeys.
  { intros id. rewrite (rangeOrder_perm env imageIDs w), list_elem_of_fmap. split.
    - intros ([k v] & -> & Hin). apply elem_of_map_to_list in Hin. by exists v.
    - intros [v Hv]. exists (id, v). split; [done|]. by apply elem_of_map_to_list. }
  split.
  - apply Forall_forall. intros ev Hev.
    apply list_elem_of_lookup in Hev as [i Hi].
    destruct (Forall2_lookup_r _ _ _ _ _ Hrun Hi) as (id & Hid & Hrem).
    exists id. split; [done|]. apply Hkeys. by eapply list_elem_of_lookup_2.
  - intros id Hid. apply Hkeys, list_elem_of_lookup in Hid as [i Hi].
    destruct (Forall2_lookup_l _ _ _ _ _ Hrun Hi) as (ev & Hev & Hrem).
    apply Exists_exists. exists ev. split; [|done]. by eapply list_elem_of_lookup_2.
Qed.

(** *** The loops over the candidates *)

Lemma stopContainersInReversedOrder_spec client params (cs : list Container)
    w failed w' tr :
  stopContainersInReversedOrder env cs client params w = (failed, w', tr) →
  failed = wrap (Z.of_nat (count stepFailed tr)) ∧
  count stepFailed tr ≤ count ToRestart cs ∧
  Forall (λ ev, passEvent params cs ev ∧ isScanEvent ev = false) tr.
Proof.
  unfold stopContainersInReversedOrder. intros Hrun.
  rewrite <- (count_reverse ToRestart cs).
  cut (failed = wrap (Z.of_nat (count stepFailed tr)) ∧
       count stepFailed tr ≤ count ToRestart (reverse cs) ∧
       Forall (λ ev, passEvent params (reverse cs) ev ∧ isScanEvent ev = false) tr).
  { intros (? & ? & ?). split_and!; try done.
    eapply driven_mono; [|done]. intros c. by rewrite elem_of_reverse. }
  revert Hrun. generalize (reverse cs). clear cs. intros cs Hrun.
  eapply (foldM_inv _ (λ done failed tr,
            failed = wrap (Z.of_nat (count stepFailed tr)) ∧
            count stepFailed tr ≤ count ToRestart done ∧
            Forall (λ ev, passEvent params done ev ∧ isScanEvent ev = false) tr));
    [|by split_and!; constructor|exact Hrun].
  clear. intros done c rest failed tr w failed' w' tr' _ (-> & Hle & Hev) Hrun.
  apply bind_run in Hrun as (err & w1 & t1 & t2 & Hstop & Hrun & ->).
  run_inv. rewrite app_nil_r.
  apply stopStaleContainer_spec in Hstop as (Hc & Hb & Hf).
  rewrite !count_app, countFailure_wrap, Hc. simpl. split_and!; [done|lia|].
  apply Forall_app. split.
  - eapply driven_mono; [|done]. intros c' ?. apply elem_of_app. auto.
  - apply Hf. apply elem_of_app. right. by apply list_elem_of_singleton.
Qed.

(** Both restart loops carry the set of image IDs and the failure
    counter; one invariant serves both.  [k] is the number of failures a
    single container can add. *)
Lemma drive_loop_spec params (k : nat)
    (body : gmap string bool * Z → Container → M (gmap string bool * Z)) :
  (∀ ids n c w ids' failed' w' tr,
     body (ids, wrap (Z.of_nat n)) c w = ((ids', failed'), w', tr) →
     failed' = wrap (Z.of_nat (n + count stepFailed tr)) ∧
     count stepFailed tr ≤ k * (if ToRestart c then 1 else 0) ∧
     (∀ cs, c ∈ cs →
        Forall (λ ev, passEvent params cs ev ∧ isScanEvent ev = false) tr) ∧
     ids' = (if ToRestart c then <[ImageID c := true]> ids else ids) ∧
     (ToRestart c = true → NoRestart params = false →
        Exists (startAttemptedOn c) tr ∨ Exists (renameFailedOn c) tr) ∧
     (ToRestart c = true → NoRestart params = false → IsWatchtower c = false →
        Exists (startAttemptedOn c) tr)) →
  ∀ (cs : list Container) w ids failed w' tr,
    foldM body cs (∅, 0%Z) w = ((ids, failed), w', tr) →
    failed = wrap (Z.of_nat (count stepFailed tr)) ∧
    count stepFailed tr ≤ k * count ToRestart cs ∧
    Forall (λ ev, passEvent params cs ev ∧ isScanEvent ev = false) tr ∧
    (∀ id, is_Some (ids !! id) ↔ ∃ c, c ∈ cs ∧ ToRestart c = true ∧ ImageID c = id) ∧
    (NoRestart params = false → ∀ c, c ∈ cs → ToRestart c = true →
       Exists (startAttemptedOn c) tr ∨ Exists (renameFailedOn c) tr) ∧
    (NoRestart params = false → ∀ c, c ∈ cs → ToRestart c = true →
       IsWatchtower c = false → Exists (startAttemptedOn c) tr).
Proof.
  intros Hbody cs w ids failed w' tr Hrun.
  eapply (foldM_inv body (λ done st tr,
            st.2 = wrap (Z.of_nat (count stepFailed tr)) ∧
            count stepFailed tr ≤ k * count ToRestart done ∧
            Forall (λ ev, passEvent params done ev ∧ isScanEvent ev = false) tr ∧
            (∀ id, is_Some (st.1 !! id) ↔
                   ∃ c, c ∈ done ∧ ToRestart c = true ∧ ImageID c = id) ∧
            (NoRestart params = false → ∀ c, c ∈ done → ToRestart c = true →
               Exists (startAttemptedOn c) tr ∨ Exists (renameFailedOn c) tr) ∧
            (NoRestart params = false → ∀ c, c ∈ done → ToRestart c = true →
               IsWatchtower c = false → Exists (startAttemptedOn c) tr)) cs)
    in Hrun; [exact Hrun| |].
  - clear -Hbody. intros done c rest [ids failed] tr w [ids' failed'] w' tr' _
      (Hfail & Hle & Hev & Hids & Hst & Hst') Hrun. simpl in *. subst failed.
    apply Hbody in Hrun as (-> & Hle' & Hev' & -> & Hs & Hs').
    rewrite !count_app. split_and!.
    + done.
    + simpl. destruct (ToRestart c); lia.
    + apply Forall_app. split.
      * eapply driven_mono; [|done]. intros c' ?. apply elem_of_app. auto.
      * apply Hev'. apply elem_of_app. right. by apply list_elem_of_singleton.
    + intros id. setoid_rewrite elem_of_app. setoid_rewrite list_elem_of_singleton.
      destruct (ToRestart c) eqn:Hr.
      * rewrite lookup_insert_is_Some, Hids. split.
        -- intros [<-|[_ (c' & ? & ? & ?)]]; [exists c; auto|exists c'; auto].
        -- intros (c' & [?| ->] & ? & <-).
           ++ destruct (decide (ImageID c = ImageID c')); [by left|right].
              split; [done|]. exists c'. auto.
           ++ by left.
      * rewrite Hids. split.
        -- intros (c' & ? & ? & ?). exists c'. auto.
        -- intros (c' & [?| ->] & ? & <-); [exists c'; auto|congruence].
    + intros Hn c' [Hin| ->%list_elem_of_singleton]%elem_of_app Hr.
      * destruct (Hst Hn c' Hin Hr); [left|right]; apply Exists_app; auto.
      * destruct (Hs Hr Hn); [left|right]; apply Exists_app; auto.
    + intros Hn c' [Hin| ->%list_elem_of_singleton]%elem_of_app Hr Hw;
        apply Exists_app; auto.
  - simpl. split_and!.
    + done.
    + lia.
    + constructor.
    + intros i. rewrite lookup_empty. split; [by intros [? ?]|].
      by intros (c & Hc%elem_of_nil & _).
    + by intros _ c Hc%elem_of_nil.
    + by intros _ c Hc%elem_of_nil.
Qed.

Lemma restartBody_step client params ids n c w ids' failed' w' tr :
  restartBody env client params (ids, wrap (Z.of_nat n)) c w = ((ids', failed'), w', tr) →
  failed' = wrap (Z.of_nat (n + count stepFailed tr)) ∧
  count stepFailed tr ≤ 1 * (if ToRestart c then 1 else 0) ∧
  (∀ cs, c ∈ cs →
     Forall (λ ev, passEvent params cs ev ∧ isScanEvent ev = false) tr) ∧
  ids' = (if ToRestart c then <[ImageID c := true]> ids else ids) ∧
  (ToRestart c = true → NoRestart params = false →
     Exists (startAttemptedOn c) tr ∨ Exists (renameFailedOn c) tr) ∧
  (ToRestart c = true → NoRestart params = false → IsWatchtower c = false →
     Exists (startAttemptedOn c) tr).
Proof.
  unfold restartBody. intros Hrun. destruct (ToRestart c) eqn:Hr; simpl in Hrun.
  - apply bind_run in Hrun as (err & w1 & t1 & t2 & Hre & Hrun & ->).
    run_inv. rewrite app_nil_r.
    apply restartStaleContainer_spec in Hre as (Hc & Hf & Hs & Hs').
    rewrite countFailure_wrap, Hc. split_and!; auto; destruct err; simpl; lia.
  - run_inv. simpl. rewrite Nat.add_0_r. by split_and!.
Qed.

Lemma rollingBody_step client params ids n c w ids' failed' w' tr :
  rollingBody env client params (ids, wrap (Z.of_nat n)) c w = ((ids', failed'), w', tr) →
  failed' = wrap (Z.of_nat (n + count stepFailed tr)) ∧
  count stepFailed tr ≤ 2 * (if ToRestart c then 1 else 0) ∧
  (∀ cs, c ∈ cs →
     Forall (λ ev, passEvent params cs ev ∧ isScanEvent ev = false) tr) ∧
  ids' = (if ToRestart c then <[ImageID c := true]> ids else ids) ∧
  (ToRestart c = true → NoRestart params = false →
     Exists (startAttemptedOn c) tr ∨ Exists (renameFailedOn c) tr) ∧
  (ToRestart c = true → NoRestart params = false → IsWatchtower c = false →
     Exists (startAttemptedOn c) tr).
Proof.
  unfold rollingBody. intros Hrun. destruct (ToRestart c) eqn:Hr; simpl in Hrun.
  - apply bind_run in Hrun as (err1 & w1 & t1 & t2 & Hstop & Hrun & ->).
    apply bind_run in Hrun as (err2 & w2 & t3 & t4 & Hre & Hrun & ->).
    run_inv. rewrite app_nil_r.
    apply stopStaleContainer_spec in Hstop as (Hc1 & _ & Hf1).
    apply restartStaleContainer_spec in Hre as (Hc2 & Hf2 & Hs & Hs').
    rewrite !countFailure_wrap, count_app, Hc1, Hc2. split_and!.
    + f_equal. lia.
    + destruct err1, err2; lia.
    + intros cs Hin. apply Forall_app. auto.
    + done.
    + intros _ Hn. destruct (Hs Hn); [left|right]; apply Exists_app; auto.
    + intros _ Hn Hw. apply Exists_app; auto.
  - run_inv. simpl. rewrite Nat.add_0_r. by split_and!.
Qed.

(** A restart loop followed by the cleanup of the collected images. *)
Lemma loop_then_cleanup_spec client params (k : nat)
    (body : gmap string bool * Z → Container → M (gmap string bool * Z))
    (cs : list Container) w failed w' tr :
  (∀ cs w ids failed w' tr,
    foldM body cs (∅, 0%Z) w = ((ids, failed), w', tr) →
    failed = wrap (Z.of_nat (count stepFailed tr)) ∧
    count stepFailed tr ≤ k * count ToRestart cs ∧
    Forall (λ ev, passEvent params cs ev ∧ isScanEvent ev = false) tr ∧
    (∀ id, is_Some (ids !! id) ↔ ∃ c, c ∈ cs ∧ ToRestart c = true ∧ ImageID c = id) ∧
    (NoRestart params = false → ∀ c, c ∈ cs → ToRestart c = true →
       Exists (startAttemptedOn c) tr ∨ Exists (renameFailedOn c) tr) ∧
    (NoRestart params = false → ∀ c, c ∈ cs → ToRestart c = true →
       IsWatchtower c = false → Exists (startAttemptedOn c) tr)) →
  ('(imageIDs, failed) ← foldM body cs (∅, 0%Z);
   _ ← when (Cleanup params) (cleanupImages env client imageIDs);
   mret failed) w = (failed, w', tr) →
  failed = wrap (Z.of_nat (count stepFailed tr)) ∧
  count stepFailed tr ≤ k * count ToRestart cs ∧
  Forall (λ ev, passEvent params cs ev ∧ isScanEvent ev = false) tr ∧
  (Cleanup params = true → ∀ c, c ∈ cs → ToRestart c = true →
     Exists (imageRemoved (ImageID c)) tr) ∧
  (NoRestart params = false → ∀ c, c ∈ cs → ToRestart c = true →
     Exists (startAttemptedOn c) tr ∨ Exists (renameFailedOn c) tr) ∧
  (NoRestart params = false → ∀ c, c ∈ cs → ToRestart c = true →
     IsWatchtower c = false → Exists (startAttemptedOn c) tr).
Proof.
  intros Hloop Hrun.
  apply bind_run in Hrun as ([ids f] & w1 & t1 & t2 & Hl & Hrun & ->).
  apply Hloop in Hl as (-> & Hle & Hev & Hids & Hs & Hs').
  apply bind_run in Hrun as (u & w2 & t3 & t4 & Hclean & Hrun & ->).
  run_inv. rewrite app_nil_r.
  assert (Forall (λ ev, passEvent params cs ev ∧ isScanEvent ev = false) t3 ∧
          count stepFailed t3 = 0 ∧
          (Cleanup params = true → ∀ c, c ∈ cs → ToRestart c = true →
             Exists (imageRemoved (ImageID c)) t3)) as (Hev3 & Hc3 & Hrem).
  { apply when_run in Hclean as [(Hcl & Hclean)|(Hcl & -> & ->)].
    - apply cleanupImages_spec in Hclean as [Hall Hex].
      assert (Forall (λ ev, passEvent params cs ev ∧ isScanEvent ev = false) t3) as Hev3.
      { eapply Forall_impl; [exact Hall|]. intros ev (id & [e ->] & Hid).
        split; [|done]. constructor; [done|]. by apply Hids. }
      split_and!; [done| |].
      + apply count_zero. eapply Forall_impl; [exact Hall|].
        by intros ev (id & [e ->] & _).
      + intros _ c Hin Hr. apply Hex, Hids. by exists c.
    - split_and!; [constructor|done|congruence]. }
  rewrite count_app, Hc3, Nat.add_0_r. split_and!; [done|done|..].
  - apply Forall_app. auto.
  - intros Hcl c Hin Hr. apply Exists_app. auto.
  - intros Hn c Hin Hr. destruct (Hs Hn c Hin Hr); [left|right]; apply Exists_app; auto.
  - intros Hn c Hin Hr Hw. apply Exists_app. auto.
Qed.

Lemma restartContainersInSortedOrder_spec client params (cs : list Container)
    w failed w' tr :
  restartContainersInSortedOrder env cs client params w = (failed, w', tr) →
  failed = wrap (Z.of_nat (count stepFailed tr)) ∧
  count stepFailed tr ≤ 1 * count ToRestart cs ∧
  Forall (λ ev, passEvent params cs ev ∧ isScanEvent ev = false) tr ∧
  (Cleanup params = true → ∀ c, c ∈ cs → ToRestart c = true →
     Exists (imageRemoved (ImageID c)) tr) ∧
  (NoRestart params = false → ∀ c, c ∈ cs → ToRestart c = true →
     Exists (startAttemptedOn c) tr ∨ Exists (renameFailedOn c) tr) ∧
  (NoRestart params = false → ∀ c, c ∈ cs → ToRestart c = true →
     IsWatchtower c = false → Exists (startAttemptedOn c) tr).
Proof.
  apply loop_then_cleanup_spec. apply drive_loop_spec.
  intros *. apply restartBody_step.
Qed.

Lemma performRollingRestart_spec client params (cs : list Container)
    w failed w' tr :
  performRollingRestart env cs client params w = (failed, w', tr) →
  failed = wrap (Z.of_nat (count stepFailed tr)) ∧
  count stepFailed tr ≤ 2 * count ToRestart cs ∧
  Forall (λ ev, passEvent params cs ev ∧ isScanEvent ev = false) tr ∧
  (Cleanup params = true → ∀ c, c ∈ cs → ToRestart c = true →
     Exists (imageRemoved (ImageID c)) tr) ∧
  (NoRestart params = false → ∀ c, c ∈ cs → ToRestart c = true →
     Exists (startAttemptedOn c) tr ∨ Exists (renameFailedOn c) tr) ∧
  (NoRestart params = false → ∀ c, c ∈ cs → ToRestart c = true →
     IsWatchtower c = false → Exists (startAttemptedOn c) tr).
Proof.
  intros Hrun.
  eapply (loop_then_cleanup_spec client params 2) in Hrun
    as (Hf & Hle & Hev & Hrem & Hs & Hs');
    [|apply drive_loop_spec; intros *; apply rollingBody_step].
  rewrite count_reverse in Hle. split_and!; [done|done|..].
  - eapply driven_mono; [|done]. intros c. by rewrite elem_of_reverse.
  - intros ? c ?. apply Hrem; [done|]. by rewrite elem_of_reverse.
  - intros ? c ?. apply Hs; [done|]. by rewrite elem_of_reverse.
  - intros ? c ?. apply Hs'; [done|]. by rewrite elem_of_reverse.
Qed.

(** *** The second half of the pass *)

Lemma drive_spec client params (st : Locals) (metric0 : Metric)
    (cs : list Container) w m w' tr :
  drive env client params st metric0 cs w = (m, w', tr) →
  Scanned m = Scanned metric0 ∧
  Failed m = wrap (Failed metric0 + Z.of_nat (count stepFailed tr)) ∧
  Updated m = sub (staleCount st) (sub (Failed m) (staleCheckFailed st)) ∧
  count stepFailed tr ≤ 2 * count ToRestart cs ∧
  Forall (λ ev, passEvent params cs ev ∧ isScanEvent ev = false) tr ∧
  (Cleanup params = true → ∀ c, c ∈ cs → ToRestart c = true →
     Exists (imageRemoved (ImageID c)) tr) ∧
  (NoRestart params = false → ∀ c, c ∈ cs → ToRestart c = true →
     Exists (startAttemptedOn c) tr ∨ Exists (renameFailedOn c) tr) ∧
  (NoRestart params = false → ∀ c, c ∈ cs → ToRestart c = true →
     IsWatchtower c = false → Exists (startAttemptedOn c) tr).
Proof.
  unfold drive. intros Hrun.
  apply bind_run in Hrun as (m1 & w1 & t1 & t2 & Hphase & Hrun & ->).
  apply bind_run in Hrun as (u & w2 & t3 & t4 & Hpost & Hrun & ->).
  run_inv. rewrite app_nil_r. simpl.
  assert (count stepFailed t3 = 0 ∧
          Forall (λ ev, passEvent params cs ev ∧ isScanEvent ev = false) t3)
    as [Hc3 Hev3].
  { apply when_run in Hpost as [(_ & Hpost)|(_ & -> & ->)]; run_inv; simpl;
      split; repeat constructor. }
  rewrite count_app, Hc3, Nat.add_0_r.
  cut (Scanned m1 = Scanned metric0 ∧
       Failed m1 = wrap (Failed metric0 + Z.of_nat (count stepFailed t1)) ∧
       count stepFailed t1 ≤ 2 * count ToRestart cs ∧
       Forall (λ ev, passEvent params cs ev ∧ isScanEvent ev = false) t1 ∧
       (Cleanup params = true → ∀ c, c ∈ cs → ToRestart c = true →
          Exists (imageRemoved (ImageID c)) t1) ∧
       (NoRestart params = false → ∀ c, c ∈ cs → ToRestart c = true →
          Exists (startAttemptedOn c) t1 ∨ Exists (renameFailedOn c) t1) ∧
       (NoRestart params = false → ∀ c, c ∈ cs → ToRestart c = true →
          IsWatchtower c = false → Exists (startAttemptedOn c) t1)).
  { intros (? & ? & ? & ? & Hrem & Hs & Hs'). split_and!; try done.
    - apply Forall_app. auto.
    - intros ? c ? ?. apply Exists_app. auto.
    - intros Hn c Hin Hr. destruct (Hs Hn c Hin Hr); [left|right]; apply Exists_app; auto.
    - intros ? c ? ? ?. apply Exists_app. auto. }
  clear Hpost Hc3 Hev3. destruct (RollingRestart params).
  - apply bind_run in Hphase as (f & w3 & t5 & t6 & Hroll & Hphase & ->).
    run_inv. rewrite app_nil_r. simpl.
    apply performRollingRestart_spec in Hroll as (-> & ? & ? & ? & ? & ?).
    split_and!; try done. unfold add. by rewrite wrap_add_r.
  - apply bind_run in Hphase as (f1 & w3 & t5 & t6 & Hstop & Hphase & ->).
    apply bind_run in Hphase as (f2 & w4 & t7 & t8 & Hre & Hphase & ->).
    run_inv. rewrite app_nil_r. simpl.
    apply stopContainersInReversedOrder_spec in Hstop as (-> & Hle1 & Hev1).
    apply restartContainersInSortedOrder_spec in Hre
      as (-> & Hle2 & Hev2 & Hrem & Hs & Hs').
    rewrite count_app. split_and!; try done.
    + unfold add. rewrite wrap_add_r, wrap_add_l, wrap_add_mid. f_equal. lia.
    + lia.
    + apply Forall_app. auto.
    + intros ? c ? ?. apply Exists_app. auto.
    + intros Hn c Hin Hr. destruct (Hs Hn c Hin Hr); [left|right]; apply Exists_app; auto.
    + intros ? c ? ? ?. apply Exists_app. auto.
Qed.

(** *** Classification *)

Lemma imap_pair_middle (cs0 : list Container) done i c rest :
  imap pair cs0 = done ++ (i, c) :: rest →
  i = length done ∧ cs0 !! length done = Some c.
Proof.
  intros Heq.
  assert (imap pair cs0 !! length done = Some (i, c)) as Hl.
  { rewrite Heq. by apply list_lookup_middle. }
  rewrite list_lookup_imap in Hl.
  destruct (cs0 !! length done) as [c'|]; simplify_eq/=. done.
Qed.

Lemma classify_loop_spec client params (cs0 : list Container) w st w' tr :
  foldM (classifyBody client params) (imap pair cs0)
    {| metric := {| Scanned := 0; Updated := 0; Failed := 0 |};
       staleCount := 0; staleCheckFailed := 0; containers := cs0 |} w
  = (st, w', tr) →
  Forall (λ ev, isClassification ev = true) tr ∧
  metric st = {| Scanned := 0; Updated := 0;
                 Failed := wrap (Z.of_nat (count classificationFailed tr)) |} ∧
  staleCheckFailed st = wrap (Z.of_nat (count classificationFailed tr)) ∧
  staleCount st = wrap (Z.of_nat (count Stale (containers st))) ∧
  count Stale (containers st) + count classificationFailed tr ≤ count isProbe tr.
Proof.
  intros Hrun.
  eapply (foldM_inv _ (λ done st tr,
            ∃ written,
              containers st = written ++ drop (length done) cs0 ∧
              length written = length done ∧
              Forall (λ ev, isClassification ev = true) tr ∧
              metric st = {| Scanned := 0; Updated := 0;
                             Failed := wrap (Z.of_nat (count classificationFailed tr)) |} ∧
              staleCheckFailed st = wrap (Z.of_nat (count classificationFailed tr)) ∧
              staleCount st = wrap (Z.of_nat (count Stale written)) ∧
              count Stale written + count classificationFailed tr ≤ count isProbe tr))
    in Hrun.
  - destruct Hrun as (written & Hcs & Hlen & ? & ? & ? & ? & ?).
    rewrite length_imap in Hcs. rewrite drop_all, app_nil_r in Hcs.
    rewrite Hcs. by split_and!.
  - clear. intros done [i c] rest st tr w st' w' tr' Hmid
      (written & Hcs & Hlen & Hev & Hm & Hscf & Hsc & Hle) Hrun.
    apply imap_pair_middle in Hmid as [-> Hc].
    unfold classifyBody in Hrun.
    apply bind_run in Hrun as ([stale err] & w1 & t1 & t2 & Hprobe & Hrun & ->).
    apply call_run in Hprobe as (Hprobe & ->). simpl in Hrun.
    apply bind_run in Hrun as (err' & w2 & t3 & t4 & Hver & Hrun & ->).
    assert (alter (λ c, set_Stale c (if err' is Some _ then false else stale))
                  (length done) (containers st)
            = (written ++ [set_Stale c (if err' is Some _ then false else stale)])
                ++ drop (length (done ++ [(length done, c)])) cs0) as Halter.
    { rewrite Hcs, <- Hlen, <- (Nat.add_0_r (length written)), alter_app_r.
      rewrite Nat.add_0_r, Hlen, (drop_S _ _ _ Hc). simpl.
      rewrite length_app. simpl. rewrite Nat.add_1_r. by rewrite <- app_assoc. }
    assert (length (written ++ [set_Stale c (if err' is Some _ then false else stale)])
            = length (done ++ [(length done, c)])) as Hlen'.
    { rewrite !length_app. simpl. lia. }
    destruct (bool_decide (err = None) && shouldUpdate params stale c) eqn:Hsu.
    + apply andb_true_iff in Hsu as [->%bool_decide_eq_true Hsu].
      assert (stale = true) as ->.
      { unfold shouldUpdate in Hsu. by destruct stale. }
      apply call_run in Hver as (Hver & ->). injection Hver as <- <-.
      destruct (VerifyConfiguration c) as [e|] eqn:Hvc; run_inv; simpl in *;
        eexists; (split; [exact Halter|]); (split; [exact Hlen'|]);
        rewrite ?Hm, ?Hscf, ?Hsc, !count_app; simpl; rewrite ?Hvc; simpl.
      * split_and!; [by repeat (apply Forall_app; split; [|repeat constructor])
                    |unfold add; rewrite wrap_add_l; repeat f_equal; lia
                    |unfold add; rewrite wrap_add_l; repeat f_equal; lia
                    |repeat f_equal; lia|lia].
      * split_and!; [by repeat (apply Forall_app; split; [|repeat constructor])
                    |repeat f_equal; lia|repeat f_equal; lia
                    |unfold add; rewrite wrap_add_l; repeat f_equal; lia|lia].
    + apply ret_run in Hver as (-> & -> & ->).
      destruct err as [e|]; simpl in *; run_inv; simpl in *;
        eexists; (split; [exact Halter|]); (split; [exact Hlen'|]);
        rewrite ?Hm, ?Hscf, ?Hsc, !count_app; simpl.
      * split_and!; [by repeat (apply Forall_app; split; [|repeat constructor])
                    |unfold add; rewrite wrap_add_l; repeat f_equal; lia
                    |unfold add; rewrite wrap_add_l; repeat f_equal; lia
                    |repeat f_equal; lia|lia].
      * destruct stale; simpl;
        (split_and!; [by repeat (apply Forall_app; split; [|repeat constructor])
                    |repeat f_equal; lia|repeat f_equal; lia
                    |unfold add; rewrite ?wrap_add_l; repeat f_equal; lia|lia]).
  - exists []. simpl. rewrite drop_0. by split_and!.
Qed.

Lemma classify_spec client params w r w' tr :
  classify env client params w = (r, w', tr) →
  Forall (λ ev, isScanEvent ev = true) tr ∧
  match r with
  | inl e =>
      (∃ l, EvListContainers l (Some e) ∈ tr) ∧
      (∀ l e', EvListContainers l e' ∈ tr → e' = Some e)
  | inr st =>
      (∀ l e, EvListContainers l e ∈ tr → e = None) ∧
      metric st = {| Scanned := 0; Updated := 0;
                     Failed := wrap (Z.of_nat (count classificationFailed tr)) |} ∧
      staleCheckFailed st = wrap (Z.of_nat (count classificationFailed tr)) ∧
      staleCount st = wrap (Z.of_nat (count Stale (containers st))) ∧
      count Stale (containers st) + count classificationFailed tr ≤ count isProbe tr
  end.
Proof.
  unfold classify. intros Hrun.
  apply bind_run in Hrun as (u & w1 & t1 & t2 & Hpre & Hrun & ->).
  apply bind_run in Hrun as ([l e] & w2 & t3 & t4 & Hlist & Hrun & ->).
  apply call_run in Hlist as (Hlist & ->). simpl in Hrun.
  assert (Forall (λ ev, isScanEvent ev = true) t1 ∧
          count classificationFailed t1 = 0 ∧ count isProbe t1 = 0 ∧
          ∀ l e, EvListContainers l e ∉ t1) as (Hev1 & Hc1 & Hp1 & Hl1).
  { apply when_run in Hpre as [(_ & Hpre)|(_ & -> & ->)]; run_inv; simpl;
      split_and!; repeat constructor; intros ? ? Hin; by inversion Hin; subst;
      try match goal with H : _ ∈ [] |- _ => inversion H end. }
  destruct e as [e|].
  { run_inv. rewrite app_nil_r. cbn [fst snd]. split_and!.
    - apply Forall_app. split; [done|]. by repeat constructor.
    - exists l. apply elem_of_app. right. by apply list_elem_of_singleton.
    - intros l' e' [Hin|Hin]%elem_of_app; [by apply Hl1 in Hin|].
      apply list_elem_of_singleton in Hin. by simplify_eq. }
  apply bind_run in Hrun as (st & w3 & t5 & t6 & Hloop & Hrun & ->).
  run_inv. rewrite app_nil_r. cbn [fst snd].
  apply classify_loop_spec in Hloop as (Hev & Hm & Hscf & Hsc & Hle).
  assert (count classificationFailed (t1 ++ [EvListContainers l None] ++ t5)
          = count classificationFailed t5) as Hcf.
  { rewrite !count_app, Hc1. simpl. lia. }
  assert (count isProbe (t1 ++ [EvListContainers l None] ++ t5) = count isProbe t5) as Hpr.
  { rewrite !count_app, Hp1. simpl. lia. }
  rewrite Hcf, Hpr. split; [|split_and!; try done].
  - apply Forall_app. split; [done|]. apply Forall_app. split; [by repeat constructor|].
    eapply Forall_impl; [exact Hev|]. by intros [].
  - intros l' e' [Hin|[Hin|Hin]%elem_of_app]%elem_of_app.
    + by apply Hl1 in Hin.
    + apply list_elem_of_singleton in Hin. by simplify_eq.
    + rewrite Forall_forall in Hev. by specialize (Hev _ Hin).
Qed.

(** *** Ordering and the choice of candidates *)

Lemma checkDependencies_noop (cs : list Container) : checkDependencies cs = cs.
Proof.
  unfold checkDependencies. generalize (seq 0 (length cs)). intros idx.
  induction idx as [|i idx IH]; simpl; [done|].
  destruct (cs !! i) as [c|]; [|done].
  unfold checkDependenciesBody. by destruct (ToRestart c).
Qed.

Lemma containersToUpdate_spec params (l : list Container) c :
  c ∈ containersToUpdate params l ↔
  c ∈ l ∧ IsMonitorOnly c = false ∧ MonitorOnly params = false.
Proof.
  unfold containersToUpdate. destruct (MonitorOnly params); simpl.
  - split; [by intros ?%elem_of_nil|by intros (_ & _ & ?)].
  - rewrite list_elem_of_filter. split; [by intros [? ?]|by intros (? & ? & _)].
Qed.

Lemma count_filter_le {A} (f : A → bool) (P : A → Prop) `{∀ a, Decision (P a)}
    (l : list A) :
  count f (filter P l) ≤ count f l.
Proof.
  induction l as [|a l IH]; simpl; [done|].
  rewrite filter_cons. destruct (decide (P a)); simpl; destruct (f a); lia.
Qed.

Lemma order_spec params (st : Locals) metric0 sorted cs :
  order env params st = inr (metric0, sorted, cs) →
  (SortByDependencies env (containers st)).2 = None ∧
  sorted = (SortByDependencies env (containers st)).1 ∧
  metric0 = set_Scanned (metric st) (len sorted) ∧
  cs = containersToUpdate params sorted.
Proof.
  unfold order. destruct (SortByDependencies env (containers st)) as [l [e|]];
    [done|]. rewrite checkDependencies_noop. intros [= <- <- <-]. done.
Qed.

(** *** The whole pass, phase by phase *)

Lemma Update_run client params w res w' tr :
  Update env client params w = (res, w', tr) →
  ∃ r w1 tr1,
    classify env client params w = (r, w1, tr1) ∧
    match r with
    | inl e => res = (None, Some e) ∧ w' = w1 ∧ tr = tr1
    | inr st =>
        match order env params st with
        | inl e => res = (None, Some e) ∧ w' = w1 ∧ tr = tr1
        | inr (metric0, sorted, cs) =>
            ∃ m tr2,
              res = (Some m, None) ∧
              drive env client params st metric0 cs w1 = (m, w', tr2) ∧
              tr = tr1 ++ tr2
        end
    end.
Proof.
  unfold Update. intros Hrun.
  apply bind_run in Hrun as (r & w1 & tr1 & tr2 & Hcl & Hrun & ->).
  exists r, w1, tr1. split; [done|]. destruct r as [e|st].
  { run_inv. by rewrite app_nil_r. }
  destruct (order env params st) as [e|[[metric0 sorted] cs]].
  { run_inv. by rewrite app_nil_r. }
  apply bind_run in Hrun as (m & w2 & t1 & t2 & Hdr & Hrun & ->).
  run_inv. rewrite app_nil_r. by exists m, t1.
Qed.

(** A pass that returns a metric went through all phases; what each
    phase guarantees, in one place. *)
Lemma Update_success client params w m err w' tr :
  Update env client params w = ((Some m, err), w', tr) →
  ∃ st w1 tr1 tr2 sorted cs,
    classify env client params w = (inr st, w1, tr1) ∧
    err = None ∧ tr = tr1 ++ tr2 ∧
    (SortByDependencies env (containers st)).2 = None ∧
    sorted = (SortByDependencies env (containers st)).1 ∧
    cs = containersToUpdate params sorted ∧
    Forall (λ ev, isScanEvent ev = true) tr1 ∧
    Forall (λ ev, passEvent params cs ev ∧ isScanEvent ev = false) tr2 ∧
    count classificationFailed tr = count classificationFailed tr1 ∧
    count stepFailed tr = count stepFailed tr2 ∧
    staleCheckFailed st = wrap (Z.of_nat (count classificationFailed tr)) ∧
    staleCount st = wrap (Z.of_nat (count Stale (containers st))) ∧
    Failed (metric st) = staleCheckFailed st ∧
    count Stale (containers st) + count classificationFailed tr ≤ count isProbe tr1 ∧
    count Stale (containers st) + count classificationFailed tr ≤ length tr1 ∧
    count stepFailed tr ≤ 2 * count ToRestart cs ∧
    count stepFailed tr ≤ length tr2 ∧
    Scanned m = len sorted ∧
    Failed m = wrap (Z.of_nat (count classificationFailed tr + count stepFailed tr)) ∧
    Updated m = sub (staleCount st) (sub (Failed m) (staleCheckFailed st)) ∧
    (Cleanup params = true → ∀ c, c ∈ cs → ToRestart c = true →
       Exists (imageRemoved (ImageID c)) tr2) ∧
    (NoRestart params = false → ∀ c, c ∈ cs → ToRestart c = true →
       Exists (startAttemptedOn c) tr2 ∨ Exists (renameFailedOn c) tr2) ∧
    (NoRestart params = false → ∀ c, c ∈ cs → ToRestart c = true →
       IsWatchtower c = false → Exists (startAttemptedOn c) tr2).
Proof.
  intros Hrun. apply Update_run in Hrun as (r & w1 & tr1 & Hcl & Hrest).
  destruct r as [e|st]; [by destruct Hrest as ([= ] & _)|].
  destruct (order env params st) as [e|[[metric0 sorted] cs]] eqn:Hord;
    [by destruct Hrest as ([= ] & _)|].
  destruct Hrest as (m' & tr2 & Heq & Hdr & ->). injection Heq as -> ->.
  apply order_spec in Hord as (Hsort & -> & -> & ->).
  apply classify_spec in Hcl as Hspec. destruct Hspec as (Hev1 & _ & Hm & Hscf & Hsc & Hle).
  apply drive_spec in Hdr as (Hscan & Hfail & Hupd & Hle2 & Hev2 & Hrem & Hs & Hs').
  assert (Forall (λ ev, isScanEvent ev = false) tr2) as Hns.
  { eapply Forall_impl; [exact Hev2|]. by intros ev [_ ?]. }
  destruct (driven_not_classification _ Hns) as [Hcf2 Hp2].
  pose proof (scan_not_step _ Hev1) as Hsf1.
  exists st, w1, tr1, tr2, (SortByDependencies env (containers st)).1,
    (containersToUpdate params (SortByDependencies env (containers st)).1).
  rewrite !count_app, Hcf2, Hsf1, Nat.add_0_r. simpl.
  split_and!; try done.
  - by rewrite Hm, Hscf.
  - pose proof (count_le_length isProbe tr1). lia.
  - apply count_le_length.
  - rewrite Hfail. simpl. rewrite Hm. simpl. rewrite wrap_add_l. f_equal. lia.
Qed.

(** Below 2^62 outside calls no counter wraps around. *)
Lemma Update_exact client params w m err w' tr :
  Update env client params w = ((Some m, err), w', tr) →
  (Z.of_nat (length tr) < 4611686018427387904)%Z →
  ∃ st w1 tr1,
    classify env client params w = (inr st, w1, tr1) ∧
    staleCheckFailed st = Z.of_nat (count classificationFailed tr) ∧
    staleCount st = Z.of_nat (count Stale (containers st)) ∧
    Failed m = Z.of_nat (count classificationFailed tr + count stepFailed tr) ∧
    Updated m = (Z.of_nat (count Stale (containers st))
                 - Z.of_nat (count stepFailed tr))%Z.
Proof.
  intros Hrun Hlen.
  apply Update_success in Hrun
    as (st & w1 & tr1 & tr2 & sorted & cs & Hcl & _ & -> & _ & _ & _ & _ & _ & _ & _
        & Hscf & Hsc & _ & _ & Hle1 & _ & Hle2 & _ & Hfail & Hupd & _).
  rewrite length_app in Hlen.
  exists st, w1, tr1. split; [done|].
  rewrite wrap_small in Hscf by lia. rewrite wrap_small in Hsc by lia.
  rewrite wrap_small in Hfail by lia.
  split_and!; try done.
  rewrite Hupd, Hfail, Hscf, Hsc. unfold sub.
  rewrite wrap_sub_r. rewrite wrap_small by lia. lia.
Qed.

Lemma scan_passEvent params (cs : list Container) ev :
  isScanEvent ev = true → passEvent params cs ev.
Proof. destruct ev; simpl; intros; try done; constructor. Qed.

Lemma stepFailed_split tr :
  count stepFailed tr
  = count preUpdateFailed tr + count stopFailed tr + count startFailed tr.
Proof.
  induction tr as [|ev tr IH]; simpl; [done|]. rewrite IH.
  destruct ev as [| | | |? [?|]|? ? [?|]| |? ? [?|]| | |]; simpl; lia.
Qed.

(** Every pass, whether it returns a metric or an error: its calls are
    those of its candidates [cs], none of which is only to be monitored. *)
Lemma Update_trace client params w res w' tr :
  Update env client params w = (res, w', tr) →
  ∃ cs : list Container,
    (∀ c, c ∈ cs → IsMonitorOnly c = false ∧ MonitorOnly params = false) ∧
    Forall (passEvent params cs) tr ∧
    (Cleanup params = true → ∀ c, c ∈ cs → ToRestart c = true →
       Exists (imageRemoved (ImageID c)) tr) ∧
    (NoRestart params = false → ∀ c, c ∈ cs → ToRestart c = true →
       Exists (startAttemptedOn c) tr ∨ Exists (renameFailedOn c) tr) ∧
    (NoRestart params = false → ∀ c, c ∈ cs → ToRestart c = true →
       IsWatchtower c = false → Exists (startAttemptedOn c) tr).
Proof.
  intros Hrun. destruct res as [[m|] err].
  - apply Update_success in Hrun
      as (st & w1 & tr1 & tr2 & sorted & cs & Hcl & _ & -> & _ & _ & Hcs & Hev1 & Hev2
          & _ & _ & _ & _ & _ & _ & _ & _ & _ & _ & _ & _ & Hrem & Hs & Hs').
    exists cs. split_and!.
    + intros c Hin. rewrite Hcs in Hin.
      by apply containersToUpdate_spec in Hin as (_ & ? & ?).
    + apply Forall_app. split.
      * eapply Forall_impl; [exact Hev1|]. intros ev. apply scan_passEvent.
      * eapply Forall_impl; [exact Hev2|]. by intros ev [? _].
    + intros ? c ? ?. apply Exists_app. auto.
    + intros Hn c Hin Hr. destruct (Hs Hn c Hin Hr); [left|right]; apply Exists_app; auto.
    + intros ? c ? ? ?. apply Exists_app. auto.
  - apply Update_run in Hrun as (r & w1 & tr1 & Hcl & Hrest).
    apply classify_spec in Hcl as [Hev1 _].
    assert (tr = tr1) as ->.
    { destruct r as [e|st]; [by destruct Hrest as (_ & _ & ->)|].
      destruct (order env params st) as [e|[[metric0 sorted] cs]];
        [by destruct Hrest as (_ & _ & ->)|by destruct Hrest as (? & ? & [= ] & _)]. }
    exists []. split_and!; try by intros ? c ?%elem_of_nil.
    + by intros c ?%elem_of_nil.
    + eapply Forall_impl; [exact Hev1|]. intros ev. apply scan_passEvent.
Qed.

End Pass.
End actions_facts.

(** ** What the update pass guarantees *)

Module actions_claims.
Import GoInt GoIntFacts CountFacts actions actions_facts Scenarios.

Section Pass.
Context {World Filter : Type} (env : @Env World Filter).

Implicit Types (w : World) (tr : list Event) (c : Container)
  (client : @Client World Filter) (params : UpdateParams Filter).

(** C1.  Whenever [Update] returns a metric, its [Updated] field is
    [staleCount - (Failed - staleCheckFailed)] in Go's arithmetic, where
    [staleCheckFailed] is the number of staleness probes and configuration
    verifications that errored (each of them also incremented [Failed],
    and a container that errored is not among those marked stale) and
    [staleCount] is the number of containers marked stale.  Below 2^62
    outside calls nothing wraps around and the identity is the one of
    the integers. *)
Theorem Update_updated_identity client params w m err w' tr :
  Update env client params w = ((Some m, err), w', tr) →
  ∃ st w1 tr1,
    classify env client params w = (inr st, w1, tr1) ∧
    staleCheckFailed st = wrap (Z.of_nat (count classificationFailed tr)) ∧
    staleCount st = wrap (Z.of_nat (count Stale (containers st))) ∧
    Failed (metric st) = staleCheckFailed st ∧
    count Stale (containers st) + count classificationFailed tr ≤ count isProbe tr1 ∧
    Updated m = sub (staleCount st) (sub (Failed m) (staleCheckFailed st)) ∧
    ((Z.of_nat (length tr) < 4611686018427387904)%Z →
       staleCheckFailed st = Z.of_nat (count classificationFailed tr) ∧
       staleCount st = Z.of_nat (count Stale (containers st)) ∧
       Updated m = (staleCount st - (Failed m - staleCheckFailed st))%Z).
Proof.
  intros Hrun.
  destruct (Update_success _ _ _ _ _ _ _ _ Hrun)
    as (st & w1 & tr1 & tr2 & sorted & cs & Hcl & _ & -> & _ & _ & _ & _ & _ & _ & _
        & Hscf & Hsc & Hm & Hle & _ & _ & _ & _ & _ & Hupd & _).
  exists st, w1, tr1. split_and!; try done.
  intros Hlen.
  destruct (Update_exact _ _ _ _ _ _ _ _ Hrun Hlen)
    as (st' & w1' & tr1' & Hcl' & Hscf' & Hsc' & Hf' & Hu').
  rewrite Hcl in Hcl'. simplify_eq. split_and!; try done.
  rewrite Hu', Hf', Hscf', Hsc'. lia.
Qed.

(** C2, as the code has it.  Whenever [Update] returns a metric (after
    fewer than 2^62 outside calls), [Scanned] and [Failed] are not
    negative, and [Updated] is [staleCount - (Failed - staleCheckFailed)]
    as it comes, without clamping: it is the number of containers marked
    stale minus the number of failed stop steps and starts, and negative
    exactly when the latter is the larger.  A candidate to restart can
    fail twice, at its stop and at its start. *)
Theorem Update_metric_unclamped client params w m err w' tr :
  Update env client params w = ((Some m, err), w', tr) →
  (Z.of_nat (length tr) < 4611686018427387904)%Z →
  (0 ≤ Scanned m)%Z ∧ (0 ≤ Failed m)%Z ∧
  ∃ st w1 tr1,
    classify env client params w = (inr st, w1, tr1) ∧
    Updated m = (staleCount st - (Failed m - staleCheckFailed st))%Z ∧
    (Failed m - staleCheckFailed st)%Z = Z.of_nat (count stepFailed tr) ∧
    ((Updated m < 0)%Z ↔ (staleCount st < Z.of_nat (count stepFailed tr))%Z) ∧
    count stepFailed tr
    ≤ 2 * count ToRestart
            (containersToUpdate params (SortByDependencies env (containers st)).1).
Proof.
  intros Hrun Hlen.
  destruct (Update_exact _ _ _ _ _ _ _ _ Hrun Hlen)
    as (st & w1 & tr1 & Hcl & Hscf & Hsc & Hf & Hu).
  destruct (Update_success _ _ _ _ _ _ _ _ Hrun)
    as (st' & w1' & tr1' & tr2 & sorted & cs & Hcl' & _ & _ & _ & -> & -> & _ & _ & _ & _
        & _ & _ & _ & _ & _ & Hle & _ & Hscan & _).
  rewrite Hcl in Hcl'. simplify_eq. split_and!.
  - rewrite Hscan. unfold len. lia.
  - lia.
  - exists st', w1', tr1'. split_and!; try done; lia.
Qed.

(** C4, as the code has it.  A stop that errors adds one to [Failed],
    at the stop step: [Failed] is the number of failed classifications
    plus the numbers of failed pre-update hooks, failed stops and failed
    starts.  The pass does not give up on that container: unless
    [NoRestart] is set, a start is attempted on every container whose
    stop errored, in the two-phase strategy and in the rolling one. *)
Theorem Update_stop_error_counted_then_start client params w m err w' tr :
  Update env client params w = ((Some m, err), w', tr) →
  Failed m = wrap (Z.of_nat (count classificationFailed tr + count preUpdateFailed tr
                             + count stopFailed tr + count startFailed tr)) ∧
  (NoRestart params = false →
     ∀ c, Exists (stopFailedOn c) tr → Exists (startAttemptedOn c) tr).
Proof.
  intros Hrun. split.
  - destruct (Update_success _ _ _ _ _ _ _ _ Hrun)
      as (st & w1 & tr1 & tr2 & sorted & cs & _ & _ & _ & _ & _ & _ & _ & _ & _ & _
          & _ & _ & _ & _ & _ & _ & _ & _ & Hf & _).
    rewrite Hf, stepFailed_split. f_equal. lia.
  - intros Hn c Hstop.
    destruct (Update_trace _ _ _ _ _ _ _ Hrun) as (cs & _ & Hev & _ & _ & Hs).
    apply Exists_exists in Hstop as (ev & Hin & t & e & ->).
    rewrite Forall_forall in Hev. specialize (Hev _ Hin).
    inversion Hev; subst. by apply Hs.
Qed.

(** C5.  No container with [IsMonitorOnly] set is handed to the client's
    stop or start, and when the pass-wide [MonitorOnly] option is set no
    container at all is. *)
Theorem Update_monitor_only_untouched client params w res w' tr ev c :
  Update env client params w = (res, w', tr) →
  ev ∈ tr → stoppedOrStarted ev = Some c →
  IsMonitorOnly c = false ∧ MonitorOnly params = false.
Proof.
  intros Hrun Hin Hev.
  destruct (Update_trace _ _ _ _ _ _ _ Hrun) as (cs & Hmon & Hall & _).
  rewrite Forall_forall in Hall. specialize (Hall _ Hin).
  destruct ev; simplify_eq/=; inversion Hall; subst; by apply Hmon.
Qed.

(** C7, as the code has it.  The client's image removal is called only
    when [Cleanup] is set, and every image removed is that of a candidate
    of the pass - a container of the sorted snapshot that the monitor-only
    filter let through - marked to restart; unless [NoRestart] is set, a
    start was attempted on that candidate or it is the orchestrator's own
    container and its rename failed.  A start is attempted only with
    [NoRestart] off, and with [Cleanup] set the image of every container
    on which a start was attempted is removed.  When the pass returns a
    metric and [Cleanup] is set, the image of every candidate marked to
    restart is removed, whether or not a start was attempted on it. *)
Theorem Update_removed_images client params w res w' tr :
  Update env client params w = (res, w', tr) →
  (∀ imageID, Exists (imageRemoved imageID) tr →
     Cleanup params = true ∧
     ∃ st w1 tr1 c,
       classify env client params w = (inr st, w1, tr1) ∧
       c ∈ containersToUpdate params (SortByDependencies env (containers st)).1 ∧
       ImageID c = imageID ∧ ToRestart c = true ∧ IsMonitorOnly c = false ∧
       (NoRestart params = false →
          Exists (startAttemptedOn c) tr
          ∨ (IsWatchtower c = true ∧ Exists (renameFailedOn c) tr))) ∧
  (∀ c, Exists (startAttemptedOn c) tr →
     NoRestart params = false ∧
     (Cleanup params = true → Exists (imageRemoved (ImageID c)) tr)) ∧
  (∀ m st w1 tr1 c,
     res.1 = Some m →
     classify env client params w = (inr st, w1, tr1) →
     Cleanup params = true →
     c ∈ containersToUpdate params (SortByDependencies env (containers st)).1 →
     ToRestart c = true →
     Exists (imageRemoved (ImageID c)) tr).
Proof.
  intros Hrun. split_and!.
  - intros id (ev & Hin & e & ->)%Exists_exists.
    destruct res as [[m|] err].
    + destruct (Update_success _ _ _ _ _ _ _ _ Hrun)
        as (st & w1 & tr1 & tr2 & sorted & cs & Hcl & _ & -> & _ & -> & -> & Hev1 & Hev2
            & _ & _ & _ & _ & _ & _ & _ & _ & _ & _ & _ & _ & _ & Hs & Hs').
      rewrite Forall_forall in Hev1. rewrite Forall_forall in Hev2.
      apply elem_of_app in Hin as [Hin|Hin]; [by apply Hev1 in Hin|].
      destruct (Hev2 _ Hin) as [Hev _].
      inversion Hev as [| | | | | | | | |id' e' Hcl' (c & Hc & Hr & Hid)|]; subst.
      split; [done|]. exists st, w1, tr1, c. split_and!; try done.
      { by apply containersToUpdate_spec in Hc as (_ & ? & _). }
      intros Hn. destruct (IsWatchtower c) eqn:Hw.
      * destruct (Hs Hn c Hc Hr) as [?|?]; [left|right; split; [done|]];
          apply Exists_app; auto.
      * left. apply Exists_app. right. by apply Hs'.
    + apply Update_run in Hrun as (r & w1 & tr1 & Hcl & Hrest).
      apply classify_spec in Hcl as [Hev1 _].
      assert (tr = tr1) as ->.
      { destruct r as [e'|st]; [by destruct Hrest as (_ & _ & ->)|].
        destruct (order env params st) as [e'|[[metric0 sorted] cs]];
          [by destruct Hrest as (_ & _ & ->)|by destruct Hrest as (? & ? & [= ] & _)]. }
      rewrite Forall_forall in Hev1. by apply Hev1 in Hin.
  - intros c (ev & Hin & id & e & ->)%Exists_exists.
    destruct (Update_trace _ _ _ _ _ _ _ Hrun) as (cs & _ & Hev & Hrem & _).
    rewrite Forall_forall in Hev. specialize (Hev _ Hin). inversion Hev; subst.
    split; [done|]. intros Hcl. by apply Hrem.
  - intros m st w1 tr1 c Hres Hcl Hclean Hc Hr.
    destruct res as [[m'|] err]; [|done].
    destruct (Update_success _ _ _ _ _ _ _ _ Hrun)
      as (st' & w1' & tr1' & tr2 & sorted & cs & Hcl' & _ & -> & _ & -> & -> & _ & _
          & _ & _ & _ & _ & _ & _ & _ & _ & _ & _ & _ & _ & Hrem & _).
    rewrite Hcl in Hcl'. simplify_eq.
    apply Exists_app. right. by apply Hrem.
Qed.

(** C8, as the code has it.  A pass ends with a metric and no error, or
    with an error and no metric.  When listing the containers errors, and
    when the dependency sort reports an error, the pass ends there with
    that error and without a metric; after a sort error no more calls are
    made. *)
Theorem Update_fatal_errors client params w res w' tr :
  Update env client params w = (res, w', tr) →
  ((∃ m, res = (Some m, None)) ∨ (∃ e, res = (None, Some e))) ∧
  (∀ l e, EvListContainers l (Some e) ∈ tr → res = (None, Some e)) ∧
  (∀ st w1 tr1 e,
     classify env client params w = (inr st, w1, tr1) →
     (SortByDependencies env (containers st)).2 = Some e →
     res = (None, Some e) ∧ w' = w1 ∧ tr = tr1).
Proof.
  intros Hrun. apply Update_run in Hrun as (r & w1 & tr1 & Hcl & Hrest).
  pose proof (classify_spec _ _ _ _ _ _ _ Hcl) as [Hev1 Hspec].
  destruct r as [e|st].
  { destruct Hrest as (-> & -> & ->). destruct Hspec as [_ Hlist]. split_and!.
    - right. by exists e.
    - intros l e' Hin. apply Hlist in Hin. by simplify_eq.
    - intros st w1' tr1' e' Hcl'. rewrite Hcl in Hcl'. done. }
  destruct Hspec as (Hlist & _).
  destruct (order env params st) as [e|[[metric0 sorted] cs]] eqn:Hord.
  { destruct Hrest as (-> & -> & ->). split_and!.
    - right. by exists e.
    - intros l e' Hin. by apply Hlist in Hin.
    - intros st' w1' tr1' e' Hcl' Hsort. rewrite Hcl in Hcl'. simplify_eq.
      unfold order in Hord.
      destruct (SortByDependencies env (containers st')) as [l [e''|]];
        by simplify_eq/=. }
  destruct Hrest as (m & tr2 & -> & Hdr & ->).
  apply order_spec in Hord as (Hsort & _).
  apply drive_spec in Hdr as (_ & _ & _ & _ & Hev2 & _). split_and!.
  - left. by exists m.
  - intros l e' [Hin|Hin]%elem_of_app; [by apply Hlist in Hin|].
    rewrite Forall_forall in Hev2. by destruct (Hev2 _ Hin) as [_ ?].
  - intros st' w1' tr1' e' Hcl' Hsort'. rewrite Hcl in Hcl'.
    injection Hcl' as <- <- <-. by rewrite Hsort in Hsort'.
Qed.

End Pass.

(** *** The concrete passes, evaluated *)

Lemma linkedPass_run :
  linkedPass
  = ((Some {| Scanned := 2; Updated := 1; Failed := 0 |}, None), (),
     [EvListContainers [A; B] None;
      EvIsContainerStale A true None; EvVerifyConfiguration A None;
      EvIsContainerStale B false None;
      EvStopContainer staleA 10 None; EvStartContainer staleA "new-A" None]).
Proof. by vm_compute. Qed.

Lemma monitoredPass_run :
  monitoredPass
  = ((Some {| Scanned := 2; Updated := 2; Failed := 0 |}, None), (),
     [EvListContainers [A; Mon] None;
      EvIsContainerStale A true None; EvVerifyConfiguration A None;
      EvIsContainerStale Mon true None;
      EvStopContainer staleA 10 None; EvStartContainer staleA "new-A" None;
      EvRemoveImageByID "img-a" None]).
Proof. by vm_compute. Qed.

Lemma failingPass_run :
  failingPass
  = ((Some {| Scanned := 1; Updated := -1; Failed := 2 |}, None), (),
     [EvListContainers [A] None;
      EvIsContainerStale A true None; EvVerifyConfiguration A None;
      EvStopContainer staleA 10 (Some (Err "stop"));
      EvStartContainer staleA EmptyString (Some (Err "start"))]).
Proof. by vm_compute. Qed.

Lemma failingRollingPass_run : failingRollingPass = failingPass.
Proof. by vm_compute. Qed.

Lemma noRestartPass_run :
  noRestartPass
  = ((Some {| Scanned := 1; Updated := 1; Failed := 0 |}, None), (),
     [EvListContainers [A] None; EvIsContainerStale A true None;
      EvStopContainer staleA 10 None; EvRemoveImageByID "img-a" None]).
Proof. by vm_compute. Qed.

Lemma cyclePass_run :
  cyclePass
  = ((None, Some (Err "cycle")), (),
     [EvListContainers [A; B] None;
      EvIsContainerStale A true None; EvVerifyConfiguration A None;
      EvIsContainerStale B false None]).
Proof. by vm_compute. Qed.

(** *** The theorems at the concrete passes *)

Lemma Update_updated_identity_witness :
  ∃ st w1 tr1,
    classify (plainEnv None) linkedClient twoPhase () = (inr st, w1, tr1) ∧
    staleCheckFailed st = wrap (Z.of_nat (count classificationFailed linkedPass.2)) ∧
    staleCount st = wrap (Z.of_nat (count Stale (containers st))) ∧
    Failed (metric st) = staleCheckFailed st ∧
    count Stale (containers st) + count classificationFailed linkedPass.2
      ≤ count isProbe tr1 ∧
    1%Z = sub (staleCount st) (sub 0 (staleCheckFailed st)) ∧
    ((Z.of_nat (length linkedPass.2) < 4611686018427387904)%Z →
       staleCheckFailed st = Z.of_nat (count classificationFailed linkedPass.2) ∧
       staleCount st = Z.of_nat (count Stale (containers st)) ∧
       1%Z = (staleCount st - (0 - staleCheckFailed st))%Z).
Proof.
  apply (Update_updated_identity (plainEnv None) linkedClient twoPhase ()
           {| Scanned := 2; Updated := 1; Failed := 0 |} None () linkedPass.2).
  by vm_compute.
Defined.

(** C2 as stated fails: with one stale container whose stop and start
    both error, the returned metric has [Updated = -1]. *)
Lemma Update_updated_negative :
  ∃ m, failingPass.1.1 = (Some m, None) ∧ (Updated m < 0)%Z.
Proof.
  rewrite failingPass_run. by exists {| Scanned := 1; Updated := -1; Failed := 2 |}.
Qed.

Lemma Update_metric_unclamped_witness :
  (0 ≤ 1)%Z ∧ (0 ≤ 2)%Z ∧
  ∃ st w1 tr1,
    classify (plainEnv None) failingClient twoPhase () = (inr st, w1, tr1) ∧
    (-1)%Z = (staleCount st - (2 - staleCheckFailed st))%Z ∧
    (2 - staleCheckFailed st)%Z = Z.of_nat (count stepFailed failingPass.2) ∧
    ((-1 < 0)%Z ↔ (staleCount st < Z.of_nat (count stepFailed failingPass.2))%Z) ∧
    count stepFailed failingPass.2
    ≤ 2 * count ToRestart
            (containersToUpdate twoPhase
               (SortByDependencies (plainEnv None) (containers st)).1).
Proof.
  apply (Update_metric_unclamped (plainEnv None) failingClient twoPhase ()
           {| Scanned := 1; Updated := -1; Failed := 2 |} None () failingPass.2);
    by vm_compute.
Defined.

(** C4 as stated fails: in both strategies the container whose stop
    errored is started all the same, and with the start failing too it
    is counted twice. *)
Lemma Update_start_after_stop_error :
  (Exists (stopFailedOn staleA) failingPass.2 ∧
   Exists (startAttemptedOn staleA) failingPass.2 ∧
   Failed <$> failingPass.1.1.1 = Some 2%Z) ∧
  (Exists (stopFailedOn staleA) failingRollingPass.2 ∧
   Exists (startAttemptedOn staleA) failingRollingPass.2 ∧
   Failed <$> failingRollingPass.1.1.1 = Some 2%Z).
Proof.
  rewrite failingRollingPass_run, failingPass_run. simpl.
  assert (Exists (stopFailedOn staleA)
            [EvListContainers [A] None;
             EvIsContainerStale A true None; EvVerifyConfiguration A None;
             EvStopContainer staleA 10 (Some (Err "stop"));
             EvStartContainer staleA EmptyString (Some (Err "start"))]).
  { do 3 apply Exists_cons_tl. apply Exists_cons_hd. by eexists _, _. }
  assert (Exists (startAttemptedOn staleA)
            [EvListContainers [A] None;
             EvIsContainerStale A true None; EvVerifyConfiguration A None;
             EvStopContainer staleA 10 (Some (Err "stop"));
             EvStartContainer staleA EmptyString (Some (Err "start"))]).
  { do 4 apply Exists_cons_tl. apply Exists_cons_hd. by eexists _, _. }
  done.
Qed.

Lemma Update_stop_error_counted_then_start_witness :
  2%Z = wrap (Z.of_nat (count classificationFailed failingRollingPass.2
                        + count preUpdateFailed failingRollingPass.2
                        + count stopFailed failingRollingPass.2
                        + count startFailed failingRollingPass.2)) ∧
  (NoRestart rolling = false →
     ∀ c, Exists (stopFailedOn c) failingRollingPass.2 →
          Exists (startAttemptedOn c) failingRollingPass.2).
Proof.
  apply (Update_stop_error_counted_then_start (plainEnv None) failingClient rolling ()
           {| Scanned := 1; Updated := -1; Failed := 2 |} None ()
           failingRollingPass.2).
  by vm_compute.
Defined.

Lemma Update_monitor_only_untouched_witness :
  IsMonitorOnly staleA = false ∧ MonitorOnly withCleanup = false.
Proof.
  apply (Update_monitor_only_untouched (plainEnv None) monitoredClient withCleanup ()
           monitoredPass.1.1 () monitoredPass.2 (EvStopContainer staleA 10 None) staleA).
  - by vm_compute.
  - rewrite monitoredPass_run. simpl. do 4 apply list_elem_of_further.
    apply list_elem_of_here.
  - reflexivity.
Defined.

(** C6 on the code.  In the sorted snapshot [A; B], [A] is stale and [B]
    links to [A].  The link loop finds [A] and sets the mark, but on the
    range variable: the slice that [checkDependencies] leaves behind is
    the one it was given, [B] is not to restart, and the whole pass stops
    and starts [A] only and reports one update. *)
Theorem checkDependencies_mark_is_lost :
  candidateLoop "A" [staleA; B] = true ∧
  LinkedToRestarting (checkDependenciesBody [staleA; B] B).1 = true ∧
  checkDependencies [staleA; B] = [staleA; B] ∧
  Forall (λ c, Name c = "B"%string → ToRestart c = false)
    (checkDependencies [staleA; B]) ∧
  linkedPass.1.1 = (Some {| Scanned := 2; Updated := 1; Failed := 0 |}, None) ∧
  Forall (λ ev, ∀ c, stoppedOrStarted ev = Some c → Name c = "A"%string) linkedPass.2.
Proof.
  rewrite linkedPass_run. split_and!; try by vm_compute.
  - rewrite checkDependencies_noop. by repeat constructor.
  - repeat constructor; by intros c [= <-].
Qed.

(** C7 as stated fails: with restarts off and cleanup on, the image of
    the stale container is removed although no start is attempted. *)
Lemma Update_image_removed_without_start :
  Cleanup noRestartWithCleanup = true ∧
  Exists (imageRemoved "img-a") noRestartPass.2 ∧
  ∀ c, ¬ Exists (startAttemptedOn c) noRestartPass.2.
Proof.
  rewrite noRestartPass_run. cbn [fst snd]. split_and!; [done| |].
  - do 3 apply Exists_cons_tl. apply Exists_cons_hd. by eexists.
  - intros c Hex. apply Exists_exists in Hex as (ev & Hin & id & e & ->).
    repeat (apply elem_of_cons in Hin as [Hin|Hin]; [done|]).
    by apply elem_of_nil in Hin.
Qed.

Lemma Update_removed_images_witness :
  (∀ imageID, Exists (imageRemoved imageID) monitoredPass.2 →
     Cleanup withCleanup = true ∧
     ∃ st w1 tr1 c,
       classify (plainEnv None) monitoredClient withCleanup () = (inr st, w1, tr1) ∧
       c ∈ containersToUpdate withCleanup
             (SortByDependencies (plainEnv None) (containers st)).1 ∧
       ImageID c = imageID ∧ ToRestart c = true ∧ IsMonitorOnly c = false ∧
       (NoRestart withCleanup = false →
          Exists (startAttemptedOn c) monitoredPass.2
          ∨ (IsWatchtower c = true ∧ Exists (renameFailedOn c) monitoredPass.2))) ∧
  (∀ c, Exists (startAttemptedOn c) monitoredPass.2 →
     NoRestart withCleanup = false ∧
     (Cleanup withCleanup = true →
        Exists (imageRemoved (ImageID c)) monitoredPass.2)) ∧
  (∀ m st w1 tr1 c,
     monitoredPass.1.1.1 = Some m →
     classify (plainEnv None) monitoredClient withCleanup () = (inr st, w1, tr1) →
     Cleanup withCleanup = true →
     c ∈ containersToUpdate withCleanup
           (SortByDependencies (plainEnv None) (containers st)).1 →
     ToRestart c = true →
     Exists (imageRemoved (ImageID c)) monitoredPass.2).
Proof.
  apply (Update_removed_images (plainEnv None) monitoredClient withCleanup ()
           monitoredPass.1.1 ()).
  by vm_compute.
Defined.

(** C8 as stated fails: when the sorter reports a cycle the caller gets
    the error and no metric, so there is no [Scanned] field to read. *)
Lemma Update_sort_error_returns_no_metric :
  (SortByDependencies (plainEnv (Some (Err "cycle"))) [staleA; B]).2
    = Some (Err "cycle") ∧
  cyclePass.1.1 = (None, Some (Err "cycle")) ∧
  ¬ ∃ m, cyclePass.1.1.1 = Some m.
Proof.
  rewrite cyclePass_run. cbn [fst snd]. split_and!; [done..|]. by intros [m ?].
Qed.

Lemma Update_fatal_errors_witness :
  ((∃ m, cyclePass.1.1 = (Some m, None)) ∨ (∃ e, cyclePass.1.1 = (None, Some e))) ∧
  (∀ l e, EvListContainers l (Some e) ∈ cyclePass.2 → cyclePass.1.1 = (None, Some e)) ∧
  (∀ st w1 tr1 e,
     classify (plainEnv (Some (Err "cycle"))) linkedClient twoPhase ()
       = (inr st, w1, tr1) →
     (SortByDependencies (plainEnv (Some (Err "cycle"))) (containers st)).2 = Some e →
     cyclePass.1.1 = (None, Some e) ∧ () = w1 ∧ cyclePass.2 = tr1).
Proof.
  apply (Update_fatal_errors (plainEnv (Some (Err "cycle"))) linkedClient twoPhase ()
           cyclePass.1.1 () cyclePass.2).
  by vm_compute.
Defined.

End actions_claims.

(** ** The HTTP trigger and its gate *)

Module update_facts.
Import CountFacts update Requests.

Section Handler.
Context {World : Type} (decode : string → error + UpdateRequestBody).

Implicit Types (g : Globals) (t : @Thread World) (s : @System World)
  (world : World) (c : Chan).

(** *** Channels *)

Lemma trySend_spec ch v g c :
  chans g !! ch = Some c → length (buf c) < cap c →
  trySend ch v g
  = Some {| chans := <[ch := {| cap := cap c; buf := buf c ++ [v] |}]> (chans g);
            lock := lock g |}.
Proof.
  intros Hc Hlt. unfold trySend. rewrite Hc. simpl. by rewrite decide_True.
Qed.

Lemma trySend_full ch v g c :
  chans g !! ch = Some c → cap c ≤ length (buf c) → trySend ch v g = None.
Proof.
  intros Hc Hge. unfold trySend. rewrite Hc. simpl. rewrite decide_False; [done|lia].
Qed.

Lemma tryRecv_spec ch g c v rest :
  chans g !! ch = Some c → buf c = v :: rest →
  tryRecv ch g
  = Some (v, {| chans := <[ch := {| cap := cap c; buf := rest |}]> (chans g);
                lock := lock g |}).
Proof. intros Hc Hb. unfold tryRecv. rewrite Hc. simpl. by rewrite Hb. Qed.

Lemma tryRecv_empty ch g c :
  chans g !! ch = Some c → buf c = [] → tryRecv ch g = None.
Proof. intros Hc Hb. unfold tryRecv. rewrite Hc. simpl. by rewrite Hb. Qed.

(** *** The response writer *)

Lemma WriteHeader_after_Write code (text : string) (w : Response) :
  WriteHeader code (Write text w) = Write text w.
Proof. done. Qed.

Lemma sentStatus_Write_fresh (text : string) (w : Response) :
  status w = None → sentStatus (Write text w) = 200.
Proof. intros Hw. unfold sentStatus, Write. simpl. by rewrite Hw. Qed.

(** *** One invocation *)

Lemma Handle_rejected (handle : Handler) (w : Response) reqBody err g world :
  decode reqBody = inl err →
  Handle decode handle w reqBody (g, world)
  = ({| handler := handle;
        w := WriteHeader StatusBadRequest (Fprintln "Failed to load request body" w);
        pc := Done Rejected |}, (g, world)).
Proof. intros Hd. unfold Handle. simpl. by rewrite Hd. Qed.

(** *** Invocations that run concurrently *)

(** The token is in the gate or with the one invocation that took it:
    the invocations inside the update function, those about to give the
    token back, and the values queued in the gate add up to the same
    number after every step. *)
Lemma step_conserves_tokens s s' ch (n capn : nat) :
  step decode s s' →
  lock (shared s).1 = Some ch →
  (∃ c, chans (shared s).1 !! ch = Some c ∧ cap c = capn ∧
        count isRunning (threads s) + count isReleasing (threads s)
        + length (buf c) = n) →
  lock (shared s').1 = Some ch ∧
  ∃ c', chans (shared s').1 !! ch = Some c' ∧ cap c' = capn ∧
        count isRunning (threads s') + count isReleasing (threads s')
        + length (buf c') = n.
Proof.
  intros Hstep Hlock (c & Hc & Hcap & Hsum).
  destruct Hstep as [s i t t' sh' Hi Hstep1]. simpl.
  pose proof (count_insert isRunning (threads s) i t t' Hi) as Hrun.
  pose proof (count_insert isReleasing (threads s) i t t' Hi) as Hrel.
  destruct s as [[g world] ts]. simpl in *.
  unfold step1 in Hstep1. unfold isRunning, isReleasing in *.
  destruct (pc t) as [reqBody|tags|v tags|v o|f] eqn:Hpc.
  - destruct (decode reqBody); simplify_eq/=;
      (split; [done|]); exists c; split_and!; try done; lia.
  - rewrite Hlock in Hstep1. simpl in Hstep1. unfold tryRecv in Hstep1.
    rewrite Hc in Hstep1. simpl in Hstep1.
    destruct (buf c) as [|v rest] eqn:Hbuf; simplify_eq/=.
    + split; [done|]. exists c. rewrite Hbuf. split_and!; try done. simpl. lia.
    + split; [done|]. eexists. split_and!.
      * apply list_lookup_insert_eq. by eapply lookup_lt_Some.
      * done.
      * simpl in *. lia.
  - destruct (fn (handler t) tags world) as [o world']. simplify_eq/=.
    split; [done|]. exists c. split_and!; try done. lia.
  - rewrite Hlock in Hstep1. simpl in Hstep1. unfold trySend in Hstep1.
    rewrite Hc in Hstep1. simpl in Hstep1.
    destruct (decide (length (buf c) < cap c)); simplify_eq/=.
    split; [done|]. eexists. split_and!.
    + apply list_lookup_insert_eq. by eapply lookup_lt_Some.
    + done.
    + simpl. rewrite length_app. simpl. lia.
  - done.
Qed.

Lemma steps_conserve_tokens s s' ch (n capn : nat) :
  rtc (step decode) s s' →
  lock (shared s).1 = Some ch →
  (∃ c, chans (shared s).1 !! ch = Some c ∧ cap c = capn ∧
        count isRunning (threads s) + count isReleasing (threads s)
        + length (buf c) = n) →
  lock (shared s').1 = Some ch ∧
  ∃ c', chans (shared s').1 !! ch = Some c' ∧ cap c' = capn ∧
        count isRunning (threads s') + count isReleasing (threads s')
        + length (buf c') = n.
Proof.
  induction 1 as [s|s s1 s' Hstep _ IH]; intros Hlock Hinv; [done|].
  destruct (step_conserves_tokens _ _ _ _ _ Hstep Hlock Hinv) as [Hlock1 Hinv1].
  by apply IH.
Qed.

Lemma starting_threads (ts : list (@Thread World)) :
  Forall (λ t, isStarting t = true) ts →
  count isRunning ts = 0 ∧ count isReleasing ts = 0.
Proof.
  intros Hall. split; apply count_zero; (eapply Forall_impl; [exact Hall|]);
    intros t; unfold isStarting, isRunning, isReleasing; by destruct (pc t).
Qed.

End Handler.
End update_facts.

(** ** What the trigger guarantees *)

Module update_claims.
Import CountFacts update update_facts Requests Racing.

Section Handler.
Context {World : Type} (decode : string → error + UpdateRequestBody).

Implicit Types (g : Globals) (t : @Thread World) (s : @System World)
  (world : World) (c : Chan).

(** C3.  Any number of invocations of [Handle] start on a gate that holds
    at most one token and has room for one.  Whatever steps they take, in
    whatever order: at most one of them is inside the update function;
    the token is in the gate or with the invocation that took it; an
    invocation that looks at a gate without token returns at once,
    skipped, and changes nothing; one that finds the token takes it and
    enters the update function; when the update function ends, by
    returning or by panicking, the invocation goes on to give the token
    back, and that send never has to wait. *)
Theorem Handle_mutual_exclusion s0 s ch c :
  lock (shared s0).1 = Some ch →
  chans (shared s0).1 !! ch = Some c →
  length (buf c) ≤ 1 → 1 ≤ cap c →
  Forall (λ t, isStarting t = true) (threads s0) →
  rtc (step decode) s0 s →
  count isRunning (threads s) ≤ 1 ∧
  count isRunning (threads s) + count isReleasing (threads s)
    + length (tokens (shared s).1) = length (buf c) ∧
  (∀ i t tags,
     threads s !! i = Some t → pc t = AtSelect tags →
     match tokens (shared s).1 with
     | [] => step1 decode t (shared s) = Some (at_ t (Done Skipped), shared s)
     | v :: rest =>
         ∃ g', step1 decode t (shared s)
               = Some (at_ t (Running v tags), (g', (shared s).2)) ∧
               tokens g' = rest
     end) ∧
  (∀ i t v tags,
     threads s !! i = Some t → pc t = Running v tags →
     step1 decode t (shared s)
     = Some (at_ t (Releasing v (fn (handler t) tags (shared s).2).1),
             ((shared s).1, (fn (handler t) tags (shared s).2).2))) ∧
  (∀ i t v o,
     threads s !! i = Some t → pc t = Releasing v o →
     ∃ g', step1 decode t (shared s)
           = Some (at_ t (Done (match o with Returned => Ran | Panicked => PanickedIn end)),
                   (g', (shared s).2)) ∧
           tokens g' = tokens (shared s).1 ++ [v]).
Proof.
  intros Hlock Hc Hlen Hcap Hstart Hsteps.
  destruct (starting_threads _ Hstart) as [Hrun0 Hrel0].
  destruct (steps_conserve_tokens decode s0 s ch (length (buf c)) (cap c) Hsteps Hlock)
    as (Hlock' & c' & Hc' & Hcap' & Hsum).
  { exists c. split_and!; try done. lia. }
  destruct s as [[g world] ts]. simpl in *.
  assert (tokens g = buf c') as Htok.
  { unfold tokens. rewrite Hlock'. simpl. by rewrite Hc'. }
  rewrite Htok. split_and!.
  - lia.
  - done.
  - intros i t tags Hi Hpc. unfold step1. rewrite Hpc, Hlock'. simpl.
    unfold tryRecv. rewrite Hc'. simpl. destruct (buf c') as [|v rest]; [done|].
    eexists. split; [done|]. unfold tokens. simpl. rewrite Hlock'. simpl.
    rewrite list_lookup_insert_eq; [done|]. by eapply lookup_lt_Some.
  - intros i t v tags Hi Hpc. unfold step1. rewrite Hpc.
    by destruct (fn (handler t) tags world).
  - intros i t v o Hi Hpc.
    assert (1 ≤ count isReleasing ts) as Hone.
    { eapply count_lookup; [exact Hi|]. unfold isReleasing. by rewrite Hpc. }
    unfold step1. rewrite Hpc, Hlock'. simpl.
    rewrite (trySend_spec ch v g c' Hc') by lia. simpl.
    eexists. split; [done|]. unfold tokens. simpl. rewrite Hlock'. simpl.
    rewrite list_lookup_insert_eq; [done|]. by eapply lookup_lt_Some.
Qed.

(** C9 on the code.  When the body of a request does not decode, the
    update function is not called and the gate is not touched, and the
    diagnostic text is written to the response; but the text goes out
    first, which fixes the status at 200, and the 400 that follows is
    ignored. *)
Theorem Handle_undecodable_body_sends_200 (handle : Handler) (w0 : Response)
    reqBody err g world :
  decode reqBody = inl err → status w0 = None →
  ∃ t,
    Handle decode handle w0 reqBody (g, world) = (t, (g, world)) ∧
    pc t = Done Rejected ∧
    body (w t) = body w0 +:+ "Failed to load request body"
                 +:+ String (Ascii.ascii_of_nat 10) EmptyString ∧
    status (w t) = Some 200 ∧
    sentStatus (w t) ≠ StatusBadRequest.
Proof.
  intros Hd Hw. rewrite (Handle_rejected decode handle w0 reqBody err g world Hd).
  eexists. split; [done|]. simpl. unfold Fprintln, Write, WriteHeader, sentStatus.
  simpl. rewrite Hw. simpl. by split_and!.
Qed.

(** C10.  [New] stores the gate in the package-level [lock] and returns a
    handler that does not hold it.  Given a channel, [lock] refers to that
    channel; given none, [lock] refers to a channel that did not exist
    before, with room for one value and [true] queued in it, and the
    channels that existed are as they were.  Every handler, whenever it
    was made, looks at the gate that the last call of [New] stored: after
    [New] without a channel, the next invocation of any handler that
    reaches the gate takes the token. *)
Theorem New_replaces_the_gate
    (updateFn : gmap string string → World → Outcome * World)
    (updateLock : option nat) g :
  ∃ h g',
    New updateFn updateLock g = Some (h, g') ∧
    fn h = updateFn ∧ Path h = "/v1/update"%string ∧
    match updateLock with
    | Some ch => lock g' = Some ch ∧ chans g' = chans g
    | None =>
        lock g' = Some (length (chans g)) ∧
        chans g' = chans g ++ [{| cap := 1; buf := [true] |}] ∧
        chans g !! length (chans g) = None ∧
        tokens g' = [true]
    end ∧
    ∀ t tags world,
      pc t = AtSelect tags →
      step1 decode t (g', world)
      = match lock g' ≫= λ ch, tryRecv ch g' with
        | Some (v, g'') => Some (at_ t (Running v tags), (g'', world))
        | None => Some (at_ t (Done Skipped), (g', world))
        end ∧
      (updateLock = None →
       ∃ g'', step1 decode t (g', world)
              = Some (at_ t (Running true tags), (g'', world)) ∧
              tokens g'' = []).
Proof.
  destruct updateLock as [ch|]; unfold New; simpl.
  - eexists _, _. split; [done|]. split_and!; try done.
    intros t tags world Hpc. unfold step1. rewrite Hpc. simpl. split; [done|]. done.
  - unfold trySend. simpl. rewrite lookup_app_r by done.
    rewrite Nat.sub_diag. simpl.
    assert (<[length (chans g) := {| cap := 1; buf := [true] |}]>
              (chans g ++ [{| cap := 0 + 1; buf := [] |}])
            = chans g ++ [{| cap := 1; buf := [true] |}]) as Hins.
    { rewrite <- (Nat.add_0_r (length (chans g))) at 1. by rewrite insert_app_r. }
    change (0 + 1) with 1 in *. rewrite Hins.
    eexists _, _. split; [done|]. simpl.
    assert ((chans g ++ [{| cap := 1; buf := [true] |}]) !! length (chans g)
            = Some {| cap := 1; buf := [true] |}) as Hlook.
    { rewrite lookup_app_r by done. by rewrite Nat.sub_diag. }
    split_and!; try done.
    + by apply lookup_ge_None.
    + unfold tokens. simpl. by rewrite Hlook.
    + intros t tags world Hpc. unfold step1. rewrite Hpc. simpl.
      unfold tryRecv. simpl. rewrite Hlook. simpl. split; [done|]. intros _.
      eexists. split; [done|]. unfold tokens. simpl.
      rewrite list_lookup_insert_eq; [done|]. rewrite length_app. simpl. lia.
Qed.

End Handler.

(** *** The theorems at concrete requests *)

Lemma racing_reachable : rtc (step decodeTags) arrived racing.
Proof.
  eapply rtc_l; [by eapply (step_thread decodeTags arrived 0)|]. simpl.
  eapply rtc_l; [by eapply (step_thread decodeTags _ 0)|]. simpl.
  eapply rtc_l; [by eapply (step_thread decodeTags _ 1)|]. simpl.
  apply rtc_refl.
Defined.

Lemma Handle_mutual_exclusion_witness :
  count isRunning (threads racing) ≤ 1 ∧
  count isRunning (threads racing) + count isReleasing (threads racing)
    + length (tokens (shared racing).1) = length [true] ∧
  (∀ i t tags,
     threads racing !! i = Some t → pc t = AtSelect tags →
     match tokens (shared racing).1 with
     | [] => step1 decodeTags t (shared racing) = Some (at_ t (Done Skipped), shared racing)
     | v :: rest =>
         ∃ g', step1 decodeTags t (shared racing)
               = Some (at_ t (Running v tags), (g', (shared racing).2)) ∧
               tokens g' = rest
     end) ∧
  (∀ i t v tags,
     threads racing !! i = Some t → pc t = Running v tags →
     step1 decodeTags t (shared racing)
     = Some (at_ t (Releasing v (fn (handler t) tags (shared racing).2).1),
             ((shared racing).1, (fn (handler t) tags (shared racing).2).2))) ∧
  (∀ i t v o,
     threads racing !! i = Some t → pc t = Releasing v o →
     ∃ g', step1 decodeTags t (shared racing)
           = Some (at_ t (Done (match o with Returned => Ran | Panicked => PanickedIn end)),
                   (g', (shared racing).2)) ∧
           tokens g' = tokens (shared racing).1 ++ [v]).
Proof.
  apply (Handle_mutual_exclusion decodeTags arrived racing 0 {| cap := 1; buf := [true] |}).
  - reflexivity.
  - reflexivity.
  - simpl. lia.
  - simpl. lia.
  - repeat constructor.
  - exact racing_reachable.
Defined.

Lemma Handle_undecodable_body_sends_200_witness :
  ∃ t,
    Handle decodeTags theHandler fresh "not json" (idle, 0) = (t, (idle, 0)) ∧
    pc t = Done Rejected ∧
    body (w t) = body fresh +:+ "Failed to load request body"
                 +:+ String (Ascii.ascii_of_nat 10) EmptyString ∧
    status (w t) = Some 200 ∧
    sentStatus (w t) ≠ StatusBadRequest.
Proof.
  apply (Handle_undecodable_body_sends_200 decodeTags theHandler fresh "not json"
           (Err "invalid character") idle 0); reflexivity.
Defined.

End update_claims.

(** ** More about the update pass *)

Module actions_extras.
Import GoInt GoIntFacts CountFacts actions actions_facts observe Scenarios.

#[local] Opaque wrap.

Section Pass.
Context {World Filter : Type} (env : @Env World Filter).

Implicit Types (w : World) (tr : list Event) (c : Container)
  (client : @Client World Filter) (params : UpdateParams Filter).

(** Take a run of monadic code apart, call by call. *)
Ltac run_inv :=
  repeat match goal with
  | H : (_ ≫= _) _ = (_, _, _) |- _ =>
      apply bind_run in H as (? & ? & ? & ? & ? & H & ->)
  | H : mret _ _ = (_, _, _) |- _ => apply ret_run in H as (? & ? & ?); simplify_eq
  | H : call _ _ _ = (_, _, _) |- _ => apply call_run in H as (H & ->)
  | H : quiet _ _ = (_, _, _) |- _ => apply quiet_run in H as (H & ->)
  end.

(** *** The calls of one container's steps *)

Lemma stopStaleContainer_shape c client params w err w' tr :
  stopStaleContainer env c client params w = (err, w', tr) →
  tr = [] ∨
  (LifecycleHooks params = true ∧ ∃ e, tr = [EvPreUpdate c (Some e)]) ∨
  (∃ e, tr = (if LifecycleHooks params then [EvPreUpdate c None] else [])
             ++ [EvStopContainer c (Timeout params) e]).
Proof.
  unfold stopStaleContainer. intros Hrun.
  destruct (IsWatchtower c); [run_inv; by left|].
  destruct (ToRestart c); simpl in Hrun; [|run_inv; by left].
  apply bind_run in Hrun as (e1 & w1 & t1 & t2 & Hpre & Hrun & ->).
  destruct (LifecycleHooks params); run_inv.
  - destruct e1 as [e1|]; run_inv.
    + right. left. split; [done|]. by exists e1.
    + right. right. by eexists.
  - right. right. by eexists.
Qed.

Lemma restartStaleContainer_shape c client params w err w' tr :
  restartStaleContainer env c client params w = (err, w', tr) →
  ∃ R T,
    tr = R ++ T ∧
    (R = [] ∨ ∃ newName r, R = [EvRenameContainer c newName r] ∧ (r ≠ None → T = [])) ∧
    (T = [] ∨
     (∃ newID e, T = [EvStartContainer c newID (Some e)]) ∨
     (∃ newID, T = [EvStartContainer c newID None]) ∨
     (LifecycleHooks params = true ∧
      ∃ newID, T = [EvStartContainer c newID None; EvPostUpdate newID])).
Proof.
  unfold restartStaleContainer. intros Hrun.
  apply bind_run in Hrun as (renamed & w1 & R & T & Hren & Hrun & ->).
  exists R, T. split; [done|].
  assert (T = [] ∨
     (∃ newID e, T = [EvStartContainer c newID (Some e)]) ∨
     (∃ newID, T = [EvStartContainer c newID None]) ∨
     (LifecycleHooks params = true ∧
      ∃ newID, T = [EvStartContainer c newID None; EvPostUpdate newID])) as HT.
  { destruct renamed; [run_inv; by left|].
    destruct (NoRestart params); simpl in Hrun; [run_inv; by left|].
    apply bind_run in Hrun as ([newID e] & w2 & t3 & t4 & Hstart & Hrun & ->).
    apply call_run in Hstart as (Hstart & ->). simpl in Hrun.
    destruct e as [e|]; [run_inv; right; left; by eexists _, _|].
    apply bind_run in Hrun as (u & w3 & t5 & t6 & Hpost & Hrun & ->).
    apply when_run in Hpost as [(Hb & Hpost)|(Hb & -> & ->)]; run_inv.
    - apply andb_true_iff in Hb as [_ Hh]. right. right. right.
      split; [done|]. by eexists.
    - right. right. left. by eexists. }
  split; [|done].
  destruct (IsWatchtower c); run_inv; [|by left].
  right. eexists _, _. split; [done|]. intros Hr.
  destruct renamed; [by run_inv|done].
Qed.

(** *** Stretches of the loops *)

Lemma calls_nil params : calls params [] [] [].
Proof.
  unfold calls. simpl. split_and!; try done; by constructor.
Qed.

Lemma calls_app params (Ls Lt Ls' Lt' : list Container) tr tr' :
  calls params Ls Lt tr → calls params Ls' Lt' tr' →
  calls params (Ls ++ Ls') (Lt ++ Lt') (tr ++ tr').
Proof.
  intros (? & ? & ? & ? & Hh) (? & ? & ? & ? & Hh'). unfold calls, stops, starts,
    postUpdates, startedIDs in *. rewrite !omap_app.
  split_and!; try by apply sublist_app.
  - by apply Forall_app.
  - intros Hoff. apply Forall_app. auto.
Qed.

Lemma calls_weaken params (Ls Lt Ls' Lt' : list Container) tr :
  Ls `sublist_of` Ls' → Lt `sublist_of` Lt' →
  calls params Ls Lt tr → calls params Ls' Lt' tr.
Proof.
  intros Hs Ht (? & ? & ? & ? & ?). unfold calls.
  split_and!; try done; by etrans.
Qed.

Ltac calls_here :=
  unfold calls; simpl; split_and!;
  first [done | by repeat constructor | apply sublist_nil_l
        | by intros; congruence | idtac].

Lemma stopStaleContainer_calls c client params w err w' tr :
  stopStaleContainer env c client params w = (err, w', tr) →
  calls params [c] [] tr ∧ removals tr = [].
Proof.
  intros Hrun. apply stopStaleContainer_shape in Hrun
    as [->|[(Hh & e & ->)|(e & ->)]].
  - calls_here.
  - calls_here.
  - destruct (LifecycleHooks params) eqn:Hh; calls_here.
Qed.

Lemma restartStaleContainer_calls c client params w err w' tr :
  restartStaleContainer env c client params w = (err, w', tr) →
  calls params [] [c] tr ∧ removals tr = [].
Proof.
  intros Hrun. apply restartStaleContainer_shape in Hrun
    as (R & T & -> & HR & HT).
  assert (calls params [] [] R ∧ removals R = []) as [HcR HrR].
  { destruct HR as [->|(n & r & -> & _)]; calls_here. }
  assert (calls params [] [c] T ∧ removals T = []) as [HcT HrT].
  { destruct HT as [->|[(id & e & ->)|[(id & ->)|(Hh & id & ->)]]]; calls_here. }
  split.
  - apply (calls_app params [] [] [] [c]); done.
  - unfold removals in *. by rewrite omap_app, HrR, HrT.
Qed.

(** *** The loops *)

Lemma stopContainersInReversedOrder_calls client params (cs : list Container)
    w failed w' tr :
  stopContainersInReversedOrder env cs client params w = (failed, w', tr) →
  calls params (reverse cs) [] tr ∧ removals tr = [].
Proof.
  unfold stopContainersInReversedOrder. intros Hrun.
  eapply (foldM_inv _ (λ done _ tr, calls params done [] tr ∧ removals tr = []));
    [|split; [apply calls_nil|done]|exact Hrun].
  clear. intros done c rest failed tr w failed' w' tr' _ [Hc Hr] Hrun.
  apply bind_run in Hrun as (err & w1 & t1 & t2 & Hstop & Hrun & ->).
  run_inv. rewrite app_nil_r.
  apply stopStaleContainer_calls in Hstop as [Hc1 Hr1]. split.
  - apply (calls_app params done [] [c] []); done.
  - unfold removals in *. by rewrite omap_app, Hr, Hr1.
Qed.

Lemma restart_loop_calls client params (l : list Container) st0 w st w' tr :
  foldM (restartBody env client params) l st0 w = (st, w', tr) →
  calls params [] l tr ∧ removals tr = [].
Proof.
  intros Hrun.
  eapply (foldM_inv _ (λ done _ tr, calls params [] done tr ∧ removals tr = []));
    [|split; [apply calls_nil|done]|exact Hrun].
  clear. intros done c rest [ids failed] tr w st' w' tr' _ [Hc Hr] Hrun.
  unfold restartBody in Hrun.
  assert (calls params [] [c] tr' ∧ removals tr' = []) as [Hc1 Hr1].
  { destruct (ToRestart c); simpl in Hrun.
    - apply bind_run in Hrun as (err & w1 & t1 & t2 & Hre & Hrun & ->).
      run_inv. rewrite app_nil_r. by eapply restartStaleContainer_calls.
    - run_inv. calls_here. }
  split.
  - apply (calls_app params [] done [] [c]); done.
  - unfold removals in *. by rewrite omap_app, Hr, Hr1.
Qed.

Lemma rolling_loop_calls client params (l : list Container) st0 w st w' tr :
  foldM (rollingBody env client params) l st0 w = (st, w', tr) →
  calls params l l tr ∧ removals tr = [].
Proof.
  intros Hrun.
  eapply (foldM_inv _ (λ done _ tr, calls params done done tr ∧ removals tr = []));
    [|split; [apply calls_nil|done]|exact Hrun].
  clear. intros done c rest [ids failed] tr w st' w' tr' _ [Hc Hr] Hrun.
  unfold rollingBody in Hrun.
  assert (calls params [c] [c] tr' ∧ removals tr' = []) as [Hc1 Hr1].
  { destruct (ToRestart c); simpl in Hrun.
    - apply bind_run in Hrun as (err1 & w1 & t1 & t2 & Hstop & Hrun & ->).
      apply bind_run in Hrun as (err2 & w2 & t3 & t4 & Hre & Hrun & ->).
      run_inv. rewrite app_nil_r.
      apply stopStaleContainer_calls in Hstop as [Hc1 Hr1].
      apply restartStaleContainer_calls in Hre as [Hc2 Hr2]. split.
      + apply (calls_app params [c] [] [] [c]); done.
      + unfold removals in *. by rewrite omap_app, Hr1, Hr2.
    - run_inv. calls_here. }
  split.
  - apply (calls_app params done done [c] [c]); done.
  - unfold removals in *. by rewrite omap_app, Hr, Hr1.
Qed.

Lemma removed_in_order params (l : list string) tr :
  Forall2 imageRemoved l tr → removals tr = l ∧ calls params [] [] tr.
Proof.
  induction 1 as [|imageID ev l tr [e ->] _ [IH1 IH2]]; [split; [done|apply calls_nil]|].
  split.
  - unfold removals in *. simpl. by f_equal.
  - apply (calls_app params [] [] [] [] [EvRemoveImageByID imageID e] tr); [|done].
    calls_here.
Qed.

Lemma cleanupImages_calls client params (imageIDs : gmap string bool) w u w' tr :
  cleanupImages env client imageIDs w = (u, w', tr) →
  calls params [] [] tr ∧ NoDup (removals tr) ∧
  (∀ imageID, imageID ∈ removals tr ↔ is_Some (imageIDs !! imageID)).
Proof.
  unfold cleanupImages. intros Hrun.
  apply bind_run in Hrun as (order & w1 & t1 & t2 & Hord & Hrun & ->).
  apply quiet_run in Hord as (Hord & ->). injection Hord as <- <-. simpl.
  apply remove_loop_spec in Hrun.
  apply (removed_in_order params) in Hrun as [-> Hc]. split_and!; [done|..].
  - rewrite (rangeOrder_perm env imageIDs w). apply NoDup_fst_map_to_list.
  - intros id. rewrite (rangeOrder_perm env imageIDs w), list_elem_of_fmap. split.
    + intros ([k v] & -> & Hin). apply elem_of_map_to_list in Hin. by exists v.
    + intros [v Hv]. exists (id, v). split; [done|]. by apply elem_of_map_to_list.
Qed.

(** A restart loop and the cleanup after it. *)
Lemma loop_then_cleanup_calls client params (Ls Lt : list Container)
    (body : gmap string bool * Z → Container → M (gmap string bool * Z))
    (l : list Container) w failed w' tr :
  (∀ st0 w st w' tr,
     foldM body l st0 w = (st, w', tr) → calls params Ls Lt tr ∧ removals tr = []) →
  ('(imageIDs, failed) ← foldM body l (∅, 0%Z);
   _ ← when (Cleanup params) (cleanupImages env client imageIDs);
   mret failed) w = (failed, w', tr) →
  calls params Ls Lt tr ∧ NoDup (removals tr) ∧
  (Cleanup params = false → removals tr = []).
Proof.
  intros Hloop Hrun.
  apply bind_run in Hrun as ([ids f] & w1 & t1 & t2 & Hl & Hrun & ->).
  apply Hloop in Hl as [Hc1 Hr1].
  apply bind_run in Hrun as (u & w2 & t3 & t4 & Hclean & Hrun & ->).
  run_inv. rewrite app_nil_r.
  assert (calls params [] [] t3 ∧ NoDup (removals t3) ∧
          (Cleanup params = false → removals t3 = [])) as (Hc3 & Hnd & Hoff).
  { apply when_run in Hclean as [(Hcl & Hclean)|(Hcl & -> & ->)].
    - apply (cleanupImages_calls client params) in Hclean as (? & ? & _).
      split_and!; [done..|congruence].
    - split_and!; [apply calls_nil|constructor|done]. }
  split_and!.
  - rewrite <- (app_nil_r Ls), <- (app_nil_r Lt). by apply calls_app.
  - unfold removals in *. by rewrite omap_app, Hr1.
  - intros Hcl. unfold removals in *. rewrite omap_app, Hr1. by apply Hoff.
Qed.

(** *** The second half of the pass, call by call *)

Lemma drive_calls client params (st : Locals) (metric0 : Metric)
    (cs : list Container) w m w' tr :
  drive env client params st metric0 cs w = (m, w', tr) →
  ∃ ta tb tc,
    tr = ta ++ tb ++ tc ∧
    (if RollingRestart params
     then ta = [] ∧ calls params (reverse cs) (reverse cs) tb
     else calls params (reverse cs) [] ta ∧ calls params [] cs tb) ∧
    removals ta = [] ∧ NoDup (removals tb) ∧
    (Cleanup params = false → removals tb = []) ∧
    (tc = [] ∨ (LifecycleHooks params = true ∧ tc = [EvPostChecks])).
Proof.
  unfold drive. intros Hrun.
  apply bind_run in Hrun as (m1 & w1 & t1 & t2 & Hphase & Hrun & ->).
  apply bind_run in Hrun as (u & w2 & tc & t4 & Hpost & Hrun & ->).
  run_inv. rewrite app_nil_r.
  assert (tc = [] ∨ (LifecycleHooks params = true ∧ tc = [EvPostChecks])) as Htc.
  { apply when_run in Hpost as [(Hh & Hpost)|(_ & -> & ->)]; run_inv; [by right|by left]. }
  clear Hpost. destruct (RollingRestart params).
  - apply bind_run in Hphase as (f & w3 & tb & t6 & Hroll & Hphase & ->).
    run_inv. rewrite app_nil_r. unfold performRollingRestart in Hroll.
    eapply (loop_then_cleanup_calls client params (reverse cs) (reverse cs)) in Hroll
      as (Hc & Hnd & Hoff); [|intros *; apply rolling_loop_calls].
    exists [], tb, tc. by split_and!.
  - apply bind_run in Hphase as (f1 & w3 & ta & t6 & Hstop & Hphase & ->).
    apply bind_run in Hphase as (f2 & w4 & tb & t8 & Hre & Hphase & ->).
    run_inv. rewrite app_nil_r.
    apply stopContainersInReversedOrder_calls in Hstop as [Hca Hra].
    unfold restartContainersInSortedOrder in Hre.
    eapply (loop_then_cleanup_calls client params [] cs) in Hre
      as (Hc & Hnd & Hoff); [|intros *; apply restart_loop_calls].
    exists ta, tb, tc. rewrite <- app_assoc. by split_and!.
Qed.

(** *** Classification, container by container *)

Lemma alter_written {A} (f : A → A) (written cs0 : list A) (c : A) :
  cs0 !! length written = Some c →
  alter f (length written) (written ++ drop (length written) cs0)
  = (written ++ [f c]) ++ drop (S (length written)) cs0.
Proof.
  intros Hc. rewrite <- (Nat.add_0_r (length written)) at 1.
  rewrite alter_app_r, (drop_S _ _ _ Hc). simpl. by rewrite <- app_assoc.
Qed.

Lemma classify_loop_calls client params (cs0 : list Container) st0 w st w' tr :
  containers st0 = cs0 →
  foldM (classifyBody client params) (imap pair cs0) st0 w = (st, w', tr) →
  probes tr = cs0 ∧
  Forall (λ ev, isClassification ev = true) tr ∧
  Forall2 (λ c c', c' = set_Stale c (Stale c') ∧
                   (Stale c' = true → EvIsContainerStale c true None ∈ tr))
    cs0 (containers st) ∧
  Forall (λ ev, ∀ c e, ev = EvVerifyConfiguration c e →
                       shouldUpdate params true c = true ∧
                       EvIsContainerStale c true None ∈ tr) tr.
Proof.
  intros Hst0 Hrun.
  eapply (foldM_inv _ (λ done st tr,
            ∃ written,
              containers st = written ++ drop (length done) cs0 ∧
              length written = length done ∧
              probes tr = take (length done) cs0 ∧
              Forall (λ ev, isClassification ev = true) tr ∧
              Forall2 (λ c c', c' = set_Stale c (Stale c') ∧
                               (Stale c' = true → EvIsContainerStale c true None ∈ tr))
                (take (length done) cs0) written ∧
              Forall (λ ev, ∀ c e, ev = EvVerifyConfiguration c e →
                                   shouldUpdate params true c = true ∧
                                   EvIsContainerStale c true None ∈ tr) tr))
    in Hrun.
  - destruct Hrun as (written & Hcs & Hlen & Hp & Hev & Hall & Hver).
    rewrite length_imap in Hcs, Hp, Hall. rewrite drop_all, app_nil_r in Hcs.
    rewrite firstn_all in Hp, Hall. rewrite Hcs. by split_and!.
  - clear. intros done [i c] rest st tr w st' w' tr' Hmid
      (written & Hcs & Hlen & Hp & Hev & Hall & Hver) Hrun.
    apply imap_pair_middle in Hmid as [-> Hc].
    assert (length (done ++ [(length done, c)]) = S (length done)) as Hlen'.
    { rewrite length_app. simpl. lia. }
    rewrite Hlen', (take_S_r _ _ _ Hc).
    unfold classifyBody in Hrun.
    apply bind_run in Hrun as ([stale err] & w1 & t1 & t2 & Hprobe & Hrun & ->).
    apply call_run in Hprobe as (Hprobe & ->). cbn [fst snd] in *.
    apply bind_run in Hrun as (err' & w2 & t3 & t4 & Hv & Hrun & ->).
    destruct (bool_decide (err = None) && shouldUpdate params stale c) eqn:Hsu.
    + apply andb_true_iff in Hsu as [->%bool_decide_eq_true Hsu].
      assert (stale = true) as ->.
      { unfold shouldUpdate in Hsu. by destruct stale. }
      apply call_run in Hv as (Hv & ->). injection Hv as <- <-.
      destruct (VerifyConfiguration c) as [e|] eqn:Hvc; run_inv; simpl.
      * exists (written ++ [set_Stale c false]). split_and!.
        -- rewrite Hcs, <- Hlen. apply (alter_written (λ c0, set_Stale c0 false)).
           by rewrite Hlen.
        -- rewrite length_app. simpl. lia.
        -- unfold probes in *. by rewrite omap_app, Hp.
        -- apply Forall_app. split; [done|]. by repeat constructor.
        -- apply Forall2_app.
           ++ eapply Forall2_impl; [exact Hall|]. intros a b [? Hin]. split; [done|].
              intros Hs. apply elem_of_app. auto.
           ++ constructor; [|constructor]. split; [done|]. simpl. done.
        -- apply Forall_app. split.
           ++ eapply Forall_impl; [exact Hver|]. intros ev Hq c' e' ->.
              destruct (Hq c' e' eq_refl) as [? ?]. split; [done|].
              apply elem_of_app. auto.
           ++ constructor; [by intros c' e' [= ]|]. constructor; [|by constructor].
          intros c' e' [= <- <-]. split; [done|]. apply elem_of_app; right; repeat constructor.
      * exists (written ++ [set_Stale c true]). split_and!.
        -- rewrite Hcs, <- Hlen. apply (alter_written (λ c0, set_Stale c0 true)).
           by rewrite Hlen.
        -- rewrite length_app. simpl. lia.
        -- unfold probes in *. by rewrite omap_app, Hp.
        -- apply Forall_app. split; [done|]. by repeat constructor.
        -- apply Forall2_app.
           ++ eapply Forall2_impl; [exact Hall|]. intros a b [? Hin]. split; [done|].
              intros Hs. apply elem_of_app. auto.
           ++ constructor; [|constructor]. split; [done|]. simpl. intros _. apply elem_of_app; right; repeat constructor.
        -- apply Forall_app. split.
           ++ eapply Forall_impl; [exact Hver|]. intros ev Hq c' e' ->.
              destruct (Hq c' e' eq_refl) as [? ?]. split; [done|].
              apply elem_of_app. auto.
           ++ constructor; [by intros c' e' [= ]|]. constructor; [|by constructor].
          intros c' e' [= <- <-]. split; [done|]. apply elem_of_app; right; repeat constructor.
    + apply ret_run in Hv as (-> & -> & ->).
      destruct err as [e|]; run_inv; simpl.
      * exists (written ++ [set_Stale c false]). split_and!.
        -- rewrite Hcs, <- Hlen. apply (alter_written (λ c0, set_Stale c0 false)).
           by rewrite Hlen.
        -- rewrite length_app. simpl. lia.
        -- unfold probes in *. by rewrite omap_app, Hp.
        -- apply Forall_app. split; [done|]. by repeat constructor.
        -- apply Forall2_app.
           ++ eapply Forall2_impl; [exact Hall|]. intros a b [? Hin]. split; [done|].
              intros Hs. apply elem_of_app. auto.
           ++ constructor; [|constructor]. split; [done|]. simpl. done.
        -- apply Forall_app. split.
           ++ eapply Forall_impl; [exact Hver|]. intros ev Hq c' e' ->.
              destruct (Hq c' e' eq_refl) as [? ?]. split; [done|].
              apply elem_of_app. auto.
           ++ constructor; [by intros c' e' [= ]|by constructor].
      * exists (written ++ [set_Stale c stale]). split_and!.
        -- rewrite Hcs, <- Hlen. apply (alter_written (λ c0, set_Stale c0 stale)).
           by rewrite Hlen.
        -- rewrite length_app. simpl. lia.
        -- unfold probes in *. by rewrite omap_app, Hp.
        -- apply Forall_app. split; [done|]. by repeat constructor.
        -- apply Forall2_app.
           ++ eapply Forall2_impl; [exact Hall|]. intros a b [? Hin]. split; [done|].
              intros Hs. apply elem_of_app. auto.
           ++ constructor; [|constructor]. split; [done|]. simpl. intros ->. apply elem_of_app; right; repeat constructor.
        -- apply Forall_app. split.
           ++ eapply Forall_impl; [exact Hver|]. intros ev Hq c' e' ->.
              destruct (Hq c' e' eq_refl) as [? ?]. split; [done|].
              apply elem_of_app. auto.
           ++ constructor; [by intros c' e' [= ]|by constructor].
  - exists []. simpl. rewrite drop_0. split_and!; try done; by constructor.
Qed.

Lemma classify_calls client params w r w' tr :
  classify env client params w = (r, w', tr) →
  ∃ l e t,
    tr = (if LifecycleHooks params then [EvPreChecks] else [])
         ++ [EvListContainers l e] ++ t ∧
    match r with
    | inl e' => e = Some e' ∧ t = []
    | inr st =>
        e = None ∧ probes t = l ∧
        Forall (λ ev, isClassification ev = true) t ∧
        Forall2 (λ c c', c' = set_Stale c (Stale c') ∧
                         (Stale c' = true → EvIsContainerStale c true None ∈ t))
          l (containers st) ∧
        Forall (λ ev, ∀ c e, ev = EvVerifyConfiguration c e →
                             shouldUpdate params true c = true ∧
                             EvIsContainerStale c true None ∈ t) t
    end.
Proof.
  unfold classify. intros Hrun.
  apply bind_run in Hrun as (u & w1 & t1 & t2 & Hpre & Hrun & ->).
  apply bind_run in Hrun as ([l e] & w2 & t3 & t4 & Hlist & Hrun & ->).
  apply call_run in Hlist as (Hlist & ->). cbn [fst snd] in *.
  assert (t1 = if LifecycleHooks params then [EvPreChecks] else []) as ->.
  { apply when_run in Hpre as [(-> & Hpre)|(-> & _ & ->)]; by run_inv. }
  destruct e as [e|].
  { run_inv. exists l, (Some e), []. by split_and!. }
  apply bind_run in Hrun as (st & w3 & t5 & t6 & Hloop & Hrun & ->).
  run_inv. rewrite app_nil_r.
  apply classify_loop_calls in Hloop as (? & ? & ? & ?); [|done].
  exists l, None, t5. by split_and!.
Qed.

Lemma scan_calls tr :
  Forall (λ ev, isScanEvent ev = true) tr →
  stops tr = [] ∧ starts tr = [] ∧ removals tr = [] ∧
  postUpdates tr = [] ∧ startedIDs tr = [] ∧
  Forall (λ ev, isAction ev = false) tr.
Proof.
  induction 1 as [|ev tr Hev _ (? & ? & ? & ? & ? & ?)]; [by split_and!|].
  unfold stops, starts, removals, postUpdates, startedIDs in *.
  destruct ev; simplify_eq/=; split_and!; try done; by constructor.
Qed.

(** The trace of a pass that returns a metric: classification [tr1], the
    stop loop [ta] (empty in the rolling strategy), the restart or rolling
    loop with the cleanup [tb], and the post-checks [tc]. *)
Lemma Update_calls client params w m err w' tr :
  Update env client params w = ((Some m, err), w', tr) →
  ∃ st w1 tr1 ta tb tc,
    classify env client params w = (inr st, w1, tr1) ∧
    tr = tr1 ++ ta ++ tb ++ tc ∧
    Forall (λ ev, isScanEvent ev = true) tr1 ∧
    (if RollingRestart params
     then ta = [] ∧
          calls params
            (reverse (containersToUpdate params (SortByDependencies env (containers st)).1))
            (reverse (containersToUpdate params (SortByDependencies env (containers st)).1))
            tb
     else calls params
            (reverse (containersToUpdate params (SortByDependencies env (containers st)).1))
            [] ta ∧
          calls params []
            (containersToUpdate params (SortByDependencies env (containers st)).1) tb) ∧
    removals ta = [] ∧ NoDup (removals tb) ∧
    (Cleanup params = false → removals tb = []) ∧
    (tc = [] ∨ (LifecycleHooks params = true ∧ tc = [EvPostChecks])).
Proof.
  intros Hrun. apply Update_run in Hrun as (r & w1 & tr1 & Hcl & Hrest).
  destruct r as [e|st]; [by destruct Hrest as ([= ] & _)|].
  destruct (order env params st) as [e|[[metric0 sorted] cs]] eqn:Hord;
    [by destruct Hrest as ([= ] & _)|].
  destruct Hrest as (m' & tr2 & Heq & Hdr & ->). injection Heq as -> ->.
  apply order_spec in Hord as (Hsort & -> & -> & ->).
  pose proof (classify_spec _ _ _ _ _ _ _ Hcl) as [Hev1 _].
  apply drive_calls in Hdr as (ta & tb & tc & -> & ? & ? & ? & ? & ?).
  exists st, w1, tr1, ta, tb, tc. by split_and!.
Qed.

(** Every pass, call by call: the pre-checks, the listing, the
    classification [t], the stop loop [ta], the restart or rolling loop
    with the cleanup [tb], the post-checks [tc]; [cs] are the candidates. *)
Lemma Update_shape client params w res w' tr :
  Update env client params w = (res, w', tr) →
  ∃ l e t ta tb tc (cs : list Container),
    tr = (if LifecycleHooks params then [EvPreChecks] else [])
         ++ [EvListContainers l e] ++ t ++ ta ++ tb ++ tc ∧
    (∀ e', e = Some e' → res = (None, Some e') ∧ t = []) ∧
    (e = None → probes t = l) ∧
    Forall (λ ev, isClassification ev = true) t ∧
    Forall (λ ev, ∀ c e, ev = EvVerifyConfiguration c e →
                         shouldUpdate params true c = true ∧
                         EvIsContainerStale c true None ∈ t) t ∧
    (if RollingRestart params
     then ta = [] ∧ calls params (reverse cs) (reverse cs) tb
     else calls params (reverse cs) [] ta ∧ calls params [] cs tb) ∧
    removals ta = [] ∧ NoDup (removals tb) ∧
    (Cleanup params = false → removals tb = []) ∧
    (tc = [] ∨ (LifecycleHooks params = true ∧ tc = [EvPostChecks])) ∧
    (∀ c, c ∈ cs → IsMonitorOnly c = false ∧ MonitorOnly params = false) ∧
    (res.1 = None → ta = [] ∧ tb = [] ∧ tc = [] ∧ cs = []) ∧
    (∀ st w1 tr1,
       classify env client params w = (inr st, w1, tr1) →
       (SortByDependencies env (containers st)).2 = None →
       cs = containersToUpdate params (SortByDependencies env (containers st)).1).
Proof.
  intros Hrun. destruct res as [[m|] err].
  - apply Update_calls in Hrun
      as (st & w1 & tr1 & ta & tb & tc & Hcl & -> & _ & Hloops & Hra & Hnd & Hoff & Htc).
    destruct (classify_calls _ _ _ _ _ _ Hcl) as (l & e & t & -> & -> & Hp & Hev & _ & Hver).
    exists l, None, t, ta, tb, tc,
      (containersToUpdate params (SortByDependencies env (containers st)).1).
    rewrite <- !app_assoc. split_and!; try done.
    + intros c Hin. by apply containersToUpdate_spec in Hin as (_ & ? & ?).
    + intros st' w1' tr1' Hcl' _. rewrite Hcl in Hcl'. by simplify_eq.
  - apply Update_run in Hrun as (r & w1 & tr1 & Hcl & Hrest).
    destruct (classify_calls _ _ _ _ _ _ Hcl) as (l & e & t & -> & Hr).
    assert (tr = (if LifecycleHooks params then [EvPreChecks] else [])
                 ++ [EvListContainers l e] ++ t) as ->.
    { destruct r as [e'|st]; [by destruct Hrest as (_ & _ & ->)|].
      destruct (order env params st) as [e'|[[metric0 sorted] cs]];
        [by destruct Hrest as (_ & _ & ->)|by destruct Hrest as (? & ? & [= ] & _)]. }
    exists l, e, t, [], [], [], []. rewrite !app_nil_r.
    assert ((if RollingRestart params
             then @nil Event = [] ∧ calls params (reverse []) (reverse []) []
             else calls params (reverse []) [] [] ∧ calls params [] [] [])) as Hloops.
    { destruct (RollingRestart params); split; try done; apply calls_nil. }
    destruct r as [e'|st].
    + destruct Hr as [-> ->]. destruct Hrest as (-> & _ & _).
      split_and!; try done; try by constructor.
      * intros e'' [= <-]. done.
      * by intros c ?%elem_of_nil.
      * intros st w1' tr1' Hcl'. rewrite Hcl in Hcl'. done.
    + destruct Hr as (-> & Hp & Hev & _ & Hver).
      split_and!; try done; try by constructor.
      * by intros c ?%elem_of_nil.
      * intros st' w1' tr1' Hcl' Hsort. rewrite Hcl in Hcl'. simplify_eq.
        unfold order in Hrest.
        destruct (SortByDependencies env (containers st')) as [l' [e''|]];
          simplify_eq/=. by destruct Hrest as (? & ? & [= ] & _).
Qed.

End Pass.
End actions_extras.

(** ** More guarantees of the update pass *)

Module actions_more.
Import GoInt GoIntFacts CountFacts actions actions_facts observe actions_extras
  Scenarios.

#[local] Opaque wrap.

Lemma wrap_idem z : wrap (wrap z) = wrap z.
Proof. apply wrap_small, wrap_range. Qed.

(** The candidate loop breaks out exactly when the snapshot holds a
    container of that name that is to restart. *)
Lemma candidateLoop_spec (linkName : string) (cs : list Container) :
  candidateLoop linkName cs = true ↔
  ∃ candidate, candidate ∈ cs ∧ Name candidate = linkName ∧ ToRestart candidate = true.
Proof.
  induction cs as [|cand cs IH]; simpl.
  - split; [done|]. by intros (? & ?%elem_of_nil & _).
  - destruct (String.eqb (Name cand) linkName) eqn:Hn; simpl.
    + apply String.eqb_eq in Hn. destruct (ToRestart cand) eqn:Hr.
      * split; [|done]. intros _. exists cand. split_and!; [by left|done..].
      * rewrite IH. split.
        -- intros (c' & ? & ? & ?). exists c'. split_and!; [by right|done..].
        -- intros (c' & [->|?]%elem_of_cons & ? & ?); [congruence|]. by exists c'.
    + apply String.eqb_neq in Hn. rewrite IH. split.
      * intros (c' & ? & ? & ?). exists c'. split_and!; [by right|done..].
      * intros (c' & [->|?]%elem_of_cons & ? & ?); [congruence|]. by exists c'.
Qed.

(** X1.  The dependency propagation.  On the copy it works on, the link
    loop changes nothing but [LinkedToRestarting], and sets it exactly
    when one of the links names a container of the snapshot that is to
    restart; the slice itself comes back from [checkDependencies] as it
    went in, for every snapshot. *)
Theorem checkDependencies_marks_the_copy_only (cs : list Container) (c : Container) :
  checkDependencies cs = cs ∧
  (checkDependenciesBody cs c).2 = cs ∧
  set_LinkedToRestarting (linkLoop c (Links c) cs) (LinkedToRestarting c) = c ∧
  (LinkedToRestarting (linkLoop c (Links c) cs) = true ↔
   LinkedToRestarting c = true ∨
   ∃ linkName candidate,
     linkName ∈ Links c ∧ candidate ∈ cs ∧
     Name candidate = linkName ∧ ToRestart candidate = true).
Proof.
  split_and!.
  - apply checkDependencies_noop.
  - unfold checkDependenciesBody. by destruct (ToRestart c).
  - generalize (Links c). intros links. induction links as [|n links IH]; simpl.
    + by destruct c.
    + destruct (candidateLoop n cs); [by destruct c|done].
  - generalize (Links c). intros links. induction links as [|n links IH]; simpl.
    + split; [by left|]. intros [?|(? & ? & ?%elem_of_nil & _)]; done.
    + destruct (candidateLoop n cs) eqn:Hn.
      * simpl. split; [|done]. intros _. right.
        apply candidateLoop_spec in Hn as (cand & ? & ? & ?).
        exists n, cand. split_and!; [by left|done..].
      * rewrite IH. split.
        -- intros [?|(n' & cand & ? & ? & ? & ?)]; [by left|right].
           exists n', cand. split_and!; [by right|done..].
        -- intros [?|(n' & cand & [->|?]%elem_of_cons & ? & ? & ?)]; [by left| |].
           ++ assert (candidateLoop n cs = true) as Hn'.
              { apply candidateLoop_spec. by exists cand. }
              congruence.
           ++ right. by exists n', cand.
Qed.

Section Pass.
Context {World Filter : Type} (env : @Env World Filter).

Implicit Types (w : World) (tr : list Event) (c : Container)
  (client : @Client World Filter) (params : UpdateParams Filter).

(** X2.  Which container each call is made on.  A stop and a pre-update
    hook are only for containers to restart that are not the
    orchestrator's own, and a stop is given [params.Timeout]; a rename is
    only for the orchestrator's own container, when it is to restart; a
    start is only for containers to restart, and only when [NoRestart] is
    off. *)
Theorem Update_calls_by_kind client params w res w' tr ev :
  Update env client params w = (res, w', tr) →
  ev ∈ tr →
  match ev with
  | EvStopContainer c timeout _ =>
      IsWatchtower c = false ∧ ToRestart c = true ∧ timeout = Timeout params
  | EvPreUpdate c _ =>
      IsWatchtower c = false ∧ ToRestart c = true ∧ LifecycleHooks params = true
  | EvRenameContainer c _ _ => IsWatchtower c = true ∧ ToRestart c = true
  | EvStartContainer c _ _ => ToRestart c = true ∧ NoRestart params = false
  | _ => True
  end.
Proof.
  intros Hrun Hin.
  destruct (Update_trace _ _ _ _ _ _ _ Hrun) as (cs & _ & Hall & _).
  rewrite Forall_forall in Hall. specialize (Hall _ Hin).
  by destruct Hall.
Qed.

Lemma post_update_after_start client params w res w' tr :
  Update env client params w = (res, w', tr) →
  postUpdates tr `sublist_of` startedIDs tr.
Proof.
  intros Hrun.
  destruct (Update_shape _ _ _ _ _ _ _ Hrun)
    as (l & e & t & ta & tb & tc & cs & -> & _ & _ & Hcl & _ & Hloops & _ & _ & _ & Htc & _).
  assert (postUpdates t = [] ∧ startedIDs t = []) as [Hpt Hst].
  { clear -Hcl. induction Hcl as [|ev t Hev _ [? ?]]; [done|].
    unfold postUpdates, startedIDs in *. by destruct ev; simplify_eq/=. }
  assert (postUpdates ta `sublist_of` startedIDs ta ∧
          postUpdates tb `sublist_of` startedIDs tb) as [Ha Hb].
  { destruct (RollingRestart params).
    - destruct Hloops as (-> & _ & _ & ? & _). done.
    - destruct Hloops as ((_ & _ & ? & _) & (_ & _ & ? & _)). done. }
  unfold postUpdates, startedIDs in *. rewrite !omap_app, Hpt, Hst.
  assert (omap (λ ev, match ev with EvPostUpdate newID => Some newID | _ => None end)
            (if LifecycleHooks params then [EvPreChecks] else []) = []) as ->.
  { by destruct (LifecycleHooks params). }
  assert (omap (λ ev, match ev with
                      | EvStartContainer _ newID None => Some newID
                      | _ => None
                      end)
            (if LifecycleHooks params then [EvPreChecks] else []) = []) as ->.
  { by destruct (LifecycleHooks params). }
  simpl. destruct Htc as [->|[_ ->]]; simpl; rewrite ?app_nil_r; by apply sublist_app.
Qed.

(** X3.  The post-update hook is called only with the ID that a successful
    start has returned, in the order of those starts. *)
Theorem Update_post_update_after_start client params w res w' tr :
  Update env client params w = (res, w', tr) →
  postUpdates tr `sublist_of` startedIDs tr.
Proof. apply post_update_after_start. Qed.

(** What is read off a whole trace comes from its loops. *)
Lemma shape_projections params (l : list Container) (e : option error)
    (t ta tb tc : list Event) (Ls Lt Ls' Lt' : list Container) :
  Forall (λ ev, isClassification ev = true) t →
  calls params Ls Lt ta → calls params Ls' Lt' tb →
  (tc = [] ∨ (LifecycleHooks params = true ∧ tc = [EvPostChecks])) →
  let tr := (if LifecycleHooks params then [EvPreChecks] else [])
            ++ [EvListContainers l e] ++ t ++ ta ++ tb ++ tc in
  stops tr = stops ta ++ stops tb ∧
  starts tr = starts ta ++ starts tb ∧
  removals tr = removals ta ++ removals tb ∧
  probes tr = probes t ∧
  listings tr = [(l, e)].
Proof.
  intros Hcl Hca Hcb Htc tr.
  assert (stops t = [] ∧ starts t = [] ∧ removals t = [] ∧ listings t = [])
    as (Hs & Hst & Hr & Hl).
  { clear -Hcl. induction Hcl as [|ev t Hev _ (? & ? & ? & ?)]; [done|].
    unfold stops, starts, removals, listings in *. by destruct ev; simplify_eq/=. }
  assert (∀ tx Lx Ly, calls params Lx Ly tx → probes tx = [] ∧ listings tx = []) as Hloop.
  { clear. intros tx Lx Ly (_ & _ & _ & Hout & _).
    induction Hout as [|ev tx Hev _ [? ?]]; [done|].
    unfold probes, listings in *. by destruct ev; simplify_eq/=. }
  destruct (Hloop _ _ _ Hca) as [Hpa Hla]. destruct (Hloop _ _ _ Hcb) as [Hpb Hlb].
  subst tr. unfold stops, starts, removals, probes, listings in *.
  rewrite !omap_app, Hs, Hst, Hr, Hl, Hpa, Hpb, Hla, Hlb.
  destruct (LifecycleHooks params), Htc as [->|[? ->]]; simpl;
    rewrite ?app_nil_r; by split_and!.
Qed.

(** X4.  With the lifecycle hooks switched off, no hook is called: neither
    pre-checks nor post-checks, neither pre-update nor post-update. *)
Theorem Update_hooks_off client params w res w' tr :
  Update env client params w = (res, w', tr) →
  LifecycleHooks params = false →
  Forall (λ ev, isHook ev = false) tr.
Proof.
  intros Hrun Hoff.
  destruct (Update_shape _ _ _ _ _ _ _ Hrun)
    as (l & e & t & ta & tb & tc & cs & -> & _ & _ & Hcl & _ & Hloops & _ & _ & _ & Htc & _).
  rewrite Hoff in *. destruct Htc as [->|[? _]]; [|done].
  assert (Forall (λ ev, isHook ev = false) ta ∧ Forall (λ ev, isHook ev = false) tb)
    as [Ha Hb].
  { destruct (RollingRestart params).
    - destruct Hloops as (-> & _ & _ & _ & _ & Hb). split; [constructor|auto].
    - destruct Hloops as ((_ & _ & _ & _ & Ha) & (_ & _ & _ & _ & Hb)). auto. }
  simpl. constructor; [done|]. repeat (apply Forall_app; split); try done.
  eapply Forall_impl; [exact Hcl|]. by intros [].
Qed.

(** X5.  An image is removed at most once in a pass, also when several of
    the restarted containers run it, and none is removed with [Cleanup]
    off. *)
Theorem Update_images_removed_once client params w res w' tr :
  Update env client params w = (res, w', tr) →
  NoDup (removals tr) ∧ (Cleanup params = false → removals tr = []).
Proof.
  intros Hrun.
  destruct (Update_shape _ _ _ _ _ _ _ Hrun)
    as (l & e & t & ta & tb & tc & cs & -> & _ & _ & Hcl & _ & Hloops & Hra & Hnd
        & Hoff & Htc & _).
  assert (∃ Ls Lt Ls' Lt', calls params Ls Lt ta ∧ calls params Ls' Lt' tb)
    as (Ls & Lt & Ls' & Lt' & Hca & Hcb).
  { destruct (RollingRestart params).
    - destruct Hloops as [-> ?]. exists [], [], (reverse cs), (reverse cs).
      split; [apply calls_nil|done].
    - destruct Hloops as [? ?]. by exists (reverse cs), [], [], cs. }
  destruct (shape_projections params l e t ta tb tc _ _ _ _ Hcl Hca Hcb Htc)
    as (_ & _ & -> & _). rewrite Hra. simpl. by split.
Qed.

(** X6.  The order of the two-phase strategy.  The stops go through the
    candidates from the last to the first and the starts from the first
    to the last, each skipping some; and no start comes before the last
    stop. *)
Theorem Update_two_phase_order client params w m err w' tr :
  Update env client params w = ((Some m, err), w', tr) →
  RollingRestart params = false →
  ∃ st w1 tr1 before after,
    classify env client params w = (inr st, w1, tr1) ∧
    tr = before ++ after ∧ starts before = [] ∧ stops after = [] ∧
    stops tr `sublist_of`
      reverse (containersToUpdate params (SortByDependencies env (containers st)).1) ∧
    starts tr `sublist_of`
      containersToUpdate params (SortByDependencies env (containers st)).1.
Proof.
  intros Hrun Hroll.
  destruct (Update_calls _ _ _ _ _ _ _ _ Hrun)
    as (st & w1 & tr1 & ta & tb & tc & Hcl & -> & Hev1 & Hloops & _ & _ & _ & Htc).
  rewrite Hroll in Hloops. destruct Hloops as [Hca Hcb].
  destruct (scan_calls _ Hev1) as (Hs1 & Hst1 & _).
  pose proof Hca as (Hsa & Hsta%sublist_nil_r & _).
  pose proof Hcb as (Hsb%sublist_nil_r & Hstb & _).
  assert (stops tc = [] ∧ starts tc = []) as [Hsc Hstc].
  { by destruct Htc as [->|[_ ->]]. }
  exists st, w1, tr1, (tr1 ++ ta), (tb ++ tc).
  unfold stops, starts in *. rewrite !omap_app, Hs1, Hst1, Hsta, Hsb, Hsc, Hstc.
  rewrite !app_nil_r. simpl. split_and!; try done. by rewrite app_assoc.
Qed.

(** X7.  The order of the rolling strategy.  Stops and starts both go
    through the candidates from the last to the first. *)
Theorem Update_rolling_order client params w m err w' tr :
  Update env client params w = ((Some m, err), w', tr) →
  RollingRestart params = true →
  ∃ st w1 tr1,
    classify env client params w = (inr st, w1, tr1) ∧
    stops tr `sublist_of`
      reverse (containersToUpdate params (SortByDependencies env (containers st)).1) ∧
    starts tr `sublist_of`
      reverse (containersToUpdate params (SortByDependencies env (containers st)).1).
Proof.
  intros Hrun Hroll.
  destruct (Update_calls _ _ _ _ _ _ _ _ Hrun)
    as (st & w1 & tr1 & ta & tb & tc & Hcl & -> & Hev1 & Hloops & _ & _ & _ & Htc).
  rewrite Hroll in Hloops. destruct Hloops as [-> Hcb].
  destruct (scan_calls _ Hev1) as (Hs1 & Hst1 & _).
  pose proof Hcb as (Hsb & Hstb & _).
  assert (stops tc = [] ∧ starts tc = []) as [Hsc Hstc].
  { by destruct Htc as [->|[_ ->]]. }
  exists st, w1, tr1.
  unfold stops, starts in *. rewrite !omap_app, Hs1, Hst1, Hsc, Hstc.
  rewrite !app_nil_r. simpl. by split_and!.
Qed.

(** X8.  Classification.  After a listing without error every listed
    container is probed once, in the order of the list and as it was
    listed; the classified snapshot is the listed one with nothing but
    the [Stale] fields rewritten; and a container is marked stale only
    if its probe answered stale without error. *)
Theorem classify_rewrites_only_Stale client params w st w' tr :
  classify env client params w = (inr st, w', tr) →
  ∃ l,
    listings tr = [(l, None)] ∧
    probes tr = l ∧
    length (containers st) = length l ∧
    Forall2 (λ c c', c' = set_Stale c (Stale c') ∧
                     (Stale c' = true → EvIsContainerStale c true None ∈ tr))
      l (containers st).
Proof.
  intros Hrun.
  destruct (classify_calls _ _ _ _ _ _ _ Hrun) as (l & e & t & -> & -> & Hp & Hcl & Hall & _).
  destruct (shape_projections params l None t [] [] [] [] [] [] [] Hcl
              (calls_nil params) (calls_nil params) ltac:(by left))
    as (_ & _ & _ & Hpr & Hli).
  rewrite !app_nil_r in *. exists l. split_and!; try done.
  - by rewrite Hpr.
  - symmetry. by eapply Forall2_length.
  - eapply Forall2_impl; [exact Hall|]. intros c c' [? Hin]. split; [done|].
    intros Hs. apply elem_of_app. right. apply elem_of_app. right. auto.
Qed.

Lemma verification_gated client params w res w' tr c e :
  Update env client params w = (res, w', tr) →
  EvVerifyConfiguration c e ∈ tr →
  NoRestart params = false ∧ MonitorOnly params = false ∧ IsMonitorOnly c = false ∧
  EvIsContainerStale c true None ∈ tr.
Proof.
  intros Hrun Hin.
  destruct (Update_shape _ _ _ _ _ _ _ Hrun)
    as (l & e0 & t & ta & tb & tc & cs & -> & _ & _ & Hcl & Hver & Hloops & _ & _ & _
        & Htc & _).
  assert (EvVerifyConfiguration c e ∈ t) as Hint.
  { assert (∀ tx Lx Ly, calls params Lx Ly tx → EvVerifyConfiguration c e ∉ tx) as Hloop.
    { intros tx Lx Ly (_ & _ & _ & Hout & _) Hx.
      rewrite Forall_forall in Hout. by specialize (Hout _ Hx). }
    assert ((EvVerifyConfiguration c e ∉ ta) ∧ (EvVerifyConfiguration c e ∉ tb)) as [Hna Hnb].
    { destruct (RollingRestart params).
      - destruct Hloops as [-> ?]. split; [by intros ?%elem_of_nil|by eapply Hloop].
      - destruct Hloops as [? ?]. split; by eapply Hloop. }
    repeat (apply elem_of_app in Hin as [Hin|Hin]); try done.
    - destruct (LifecycleHooks params); [|by apply elem_of_nil in Hin].
      by apply list_elem_of_singleton in Hin.
    - by apply list_elem_of_singleton in Hin.
    - destruct Htc as [->|[_ ->]]; [by apply elem_of_nil in Hin|].
      by apply list_elem_of_singleton in Hin. }
  rewrite Forall_forall in Hver.
  destruct (Hver _ Hint c e eq_refl) as [Hsu Hprobe].
  unfold shouldUpdate in Hsu. simpl in Hsu.
  destruct (NoRestart params), (MonitorOnly params), (IsMonitorOnly c); try done.
  split_and!; try done.
  apply elem_of_app. right. apply elem_of_app. right. apply elem_of_app. by left.
Qed.

(** X9.  The configuration of a container is verified only after its probe
    has answered stale without error, and only if restarts are on, the
    pass is not monitor-only and the container is not monitor-only. *)
Theorem Update_verification_gated client params w res w' tr c e :
  Update env client params w = (res, w', tr) →
  EvVerifyConfiguration c e ∈ tr →
  NoRestart params = false ∧ MonitorOnly params = false ∧ IsMonitorOnly c = false ∧
  EvIsContainerStale c true None ∈ tr.
Proof. apply verification_gated. Qed.

(** X10.  With [NoRestart] on, no container is started, no post-update hook
    is called and no configuration is verified. *)
Theorem Update_no_restart client params w res w' tr :
  Update env client params w = (res, w', tr) →
  NoRestart params = true →
  starts tr = [] ∧ postUpdates tr = [] ∧
  (∀ c e, EvVerifyConfiguration c e ∉ tr).
Proof.
  intros Hrun Hn.
  assert (starts tr = [] ∧ startedIDs tr = []) as [Hst Hids].
  { destruct (Update_trace _ _ _ _ _ _ _ Hrun) as (cs & _ & Hall & _).
    clear -Hall Hn. induction Hall as [|ev tr Hev _ [? ?]]; [done|].
    unfold starts, startedIDs in *.
    destruct Hev; simplify_eq/=; try done; congruence. }
  split_and!; [done| |].
  - pose proof (post_update_after_start _ _ _ _ _ _ Hrun) as Hsub.
    rewrite Hids in Hsub. by apply sublist_nil_r.
  - intros c e Hin.
    destruct (verification_gated _ _ _ _ _ _ _ _ Hrun Hin) as [? _]. congruence.
Qed.

(** X11.  A pass under the pass-wide [MonitorOnly] only looks.  It calls
    neither pre-update hook, stop, rename, start, post-update hook nor
    image removal, and verifies no configuration; the metric it returns
    counts every container marked stale as updated and nothing as failed
    but the classifications that errored. *)
Theorem Update_monitor_only_pass client params w res w' tr :
  Update env client params w = (res, w', tr) →
  MonitorOnly params = true →
  Forall (λ ev, isAction ev = false) tr ∧
  (∀ c e, EvVerifyConfiguration c e ∉ tr) ∧
  (∀ m, res.1 = Some m →
        ∃ st w1 tr1,
          classify env client params w = (inr st, w1, tr1) ∧
          Updated m = staleCount st ∧ Failed m = staleCheckFailed st).
Proof.
  intros Hrun Hmon.
  assert (Forall (λ ev, isAction ev = false) tr) as Hquiet.
  { destruct (Update_trace _ _ _ _ _ _ _ Hrun) as (cs & Hcs & Hall & _).
    pose proof (post_update_after_start _ _ _ _ _ _ Hrun) as Hsub.
    assert (∀ c, c ∉ cs) as Hnone.
    { intros c Hin. destruct (Hcs c Hin). congruence. }
    assert (startedIDs tr = []) as Hids.
    { clear -Hall Hnone. induction Hall as [|ev tr Hev _ IH]; [done|].
      unfold startedIDs in *. destruct Hev; simplify_eq/=; try done.
      by destruct (Hnone c). }
    rewrite Hids in Hsub. apply sublist_nil_r in Hsub.
    clear -Hall Hnone Hsub. induction Hall as [|ev tr Hev _ IH]; [constructor|].
    unfold postUpdates in *.
    destruct Hev as [| | | |c|c|c|c| |id ? ? (c & ? & _)|]; simplify_eq/=;
      try (constructor; [done|by apply IH]); by destruct (Hnone c). }
  split_and!; [done| |].
  - intros c e Hin.
    destruct (verification_gated _ _ _ _ _ _ _ _ Hrun Hin) as (_ & ? & _).
    congruence.
  - intros m Hm. destruct res as [res1 err]. simpl in Hm. subst res1.
    destruct (Update_success _ _ _ _ _ _ _ _ Hrun)
      as (st & w1 & tr1 & tr2 & sorted & cs & Hcl & _ & _ & _ & _ & _ & _ & _ & _ & _
          & Hscf & Hsc & _ & _ & _ & _ & _ & _ & Hf & Hupd & _).
    assert (count stepFailed tr = 0) as Hzero.
    { apply count_zero. eapply Forall_impl; [exact Hquiet|].
      intros [] ?; simpl in *; try done; by repeat case_match. }
    exists st, w1, tr1. rewrite Hzero, Nat.add_0_r in Hf.
    assert (Failed m = staleCheckFailed st) as HF by congruence.
    split_and!; [done| |done].
    rewrite Hupd, HF. unfold sub. rewrite Z.sub_diag.
    rewrite (wrap_small 0) by lia. rewrite Z.sub_0_r, Hsc. apply wrap_idem.
Qed.

(** X12.  When the listing errors, the pass has made no other call than the
    pre-checks (with the hooks on) and the listing itself. *)
Theorem Update_list_error_calls_nothing client params w res w' tr l e :
  Update env client params w = (res, w', tr) →
  EvListContainers l (Some e) ∈ tr →
  tr = (if LifecycleHooks params then [EvPreChecks] else [])
       ++ [EvListContainers l (Some e)].
Proof.
  intros Hrun Hin.
  destruct (Update_shape _ _ _ _ _ _ _ Hrun)
    as (l0 & e0 & t & ta & tb & tc & cs & Htr & Herr & _ & Hcl & _ & Hloops & _ & _ & _
        & Htc & _ & Hnone & _).
  assert (∃ Ls Lt Ls' Lt', calls params Ls Lt ta ∧ calls params Ls' Lt' tb)
    as (Ls & Lt & Ls' & Lt' & Hca & Hcb).
  { destruct (RollingRestart params).
    - destruct Hloops as [-> ?]. exists [], [], (reverse cs), (reverse cs).
      split; [apply calls_nil|done].
    - destruct Hloops as [? ?]. by exists (reverse cs), [], [], cs. }
  destruct (shape_projections params l0 e0 t ta tb tc _ _ _ _ Hcl Hca Hcb Htc)
    as (_ & _ & _ & _ & Hli). rewrite <- Htr in Hli.
  assert ((l, Some e) ∈ listings tr) as Hl.
  { unfold listings. apply list_elem_of_omap. by exists (EvListContainers l (Some e)). }
  rewrite Hli in Hl. apply list_elem_of_singleton in Hl. injection Hl as <- <-.
  destruct (Herr e eq_refl) as [-> ->].
  destruct (Hnone eq_refl) as (-> & -> & -> & _). by rewrite Htr, !app_nil_r.
Qed.

End Pass.

Section Steps.
Context {World Filter : Type} (env : @Env World Filter).

Implicit Types (w : World) (tr : list Event) (c : Container)
  (client : @Client World Filter) (params : UpdateParams Filter).

(** X13.  A failed rename of the orchestrator's own container.  The restart
    step ends there: no start is attempted, and the caller is told that
    nothing went wrong, so the failure is not counted. *)
Theorem restartStaleContainer_rename_failure c client params w err w' tr :
  restartStaleContainer env c client params w = (err, w', tr) →
  Exists (renameFailedOn c) tr →
  err = None ∧ ∃ newName e, tr = [EvRenameContainer c newName (Some e)].
Proof.
  intros Hrun Hex.
  destruct (restartStaleContainer_spec _ _ _ _ _ _ _ _ Hrun) as (Hcount & _).
  apply restartStaleContainer_shape in Hrun as (R & T & -> & HR & HT).
  assert (¬ Exists (renameFailedOn c) T) as HnT.
  { intros (ev & Hin & n & e & ->)%Exists_exists.
    destruct HT as [->|[(id & e' & ->)|[(id & ->)|(_ & id & ->)]]];
      repeat (apply elem_of_cons in Hin as [Hin|Hin]; [done|]);
      by apply elem_of_nil in Hin. }
  apply Exists_app in Hex as [Hex|Hex]; [|done].
  destruct HR as [->|(n & r & -> & Hr)]; [by apply Exists_nil in Hex|].
  apply Exists_cons in Hex as [(n' & e & [= <- ->])|Hex]; [|by apply Exists_nil in Hex].
  rewrite Hr in * by done. simpl in Hcount. split; [by destruct err|].
  by exists n, e.
Qed.

(** X14.  A failed pre-update hook.  The stop step ends there with the
    hook's error: the client's stop is not called for that container. *)
Theorem stopStaleContainer_hook_failure c client params w err w' tr e :
  stopStaleContainer env c client params w = (err, w', tr) →
  EvPreUpdate c (Some e) ∈ tr →
  tr = [EvPreUpdate c (Some e)] ∧ LifecycleHooks params = true ∧ is_Some err.
Proof.
  intros Hrun Hin.
  destruct (stopStaleContainer_spec _ _ _ _ _ _ _ _ Hrun) as (Hcount & _).
  apply stopStaleContainer_shape in Hrun as [->|[(Hh & e' & ->)|(e' & ->)]].
  - by apply elem_of_nil in Hin.
  - apply list_elem_of_singleton in Hin. injection Hin as <-.
    split_and!; [done..|]. simpl in Hcount. by destruct err.
  - destruct (LifecycleHooks params); simpl in Hin;
      repeat (apply elem_of_cons in Hin as [Hin|Hin]; [done|]);
      by apply elem_of_nil in Hin.
Qed.

End Steps.

(** *** The theorems at concrete passes *)

Lemma Update_calls_by_kind_witness :
  IsWatchtower staleA = false ∧ ToRestart staleA = true ∧ 10%Z = Timeout withHooks.
Proof.
  apply (Update_calls_by_kind (plainEnv None) staleClient withHooks ()
           hookedPass.1.1 () hookedPass.2 (EvStopContainer staleA 10 None)).
  - by vm_compute.
  - vm_compute. do 5 apply list_elem_of_further. apply list_elem_of_here.
Defined.

Lemma Update_post_update_after_start_witness :
  postUpdates hookedPass.2 `sublist_of` startedIDs hookedPass.2.
Proof.
  apply (Update_post_update_after_start (plainEnv None) staleClient withHooks ()
           hookedPass.1.1 ()).
  by vm_compute.
Defined.

Lemma Update_hooks_off_witness :
  Forall (λ ev, isHook ev = false) linkedPass.2.
Proof.
  apply (Update_hooks_off (plainEnv None) linkedClient twoPhase () linkedPass.1.1 ());
    by vm_compute.
Defined.

Lemma Update_images_removed_once_witness :
  NoDup (removals sharedImagePass.2) ∧
  (Cleanup withCleanup = false → removals sharedImagePass.2 = []).
Proof.
  apply (Update_images_removed_once (plainEnv None) sharedImageClient withCleanup ()
           sharedImagePass.1.1 ()).
  by vm_compute.
Defined.

Lemma Update_two_phase_order_witness :
  ∃ st w1 tr1 before after,
    classify (plainEnv None) sharedImageClient withCleanup () = (inr st, w1, tr1) ∧
    sharedImagePass.2 = before ++ after ∧ starts before = [] ∧ stops after = [] ∧
    stops sharedImagePass.2 `sublist_of`
      reverse (containersToUpdate withCleanup
                 (SortByDependencies (plainEnv None) (containers st)).1) ∧
    starts sharedImagePass.2 `sublist_of`
      containersToUpdate withCleanup
        (SortByDependencies (plainEnv None) (containers st)).1.
Proof.
  apply (Update_two_phase_order (plainEnv None) sharedImageClient withCleanup ()
           {| Scanned := 3; Updated := 3; Failed := 0 |} None ()); by vm_compute.
Defined.

Lemma Update_rolling_order_witness :
  ∃ st w1 tr1,
    classify (plainEnv None) sharedImageClient (params true false true) ()
      = (inr st, w1, tr1) ∧
    stops sharedImageRollingPass.2 `sublist_of`
      reverse (containersToUpdate (params true false true)
                 (SortByDependencies (plainEnv None) (containers st)).1) ∧
    starts sharedImageRollingPass.2 `sublist_of`
      reverse (containersToUpdate (params true false true)
                 (SortByDependencies (plainEnv None) (containers st)).1).
Proof.
  apply (Update_rolling_order (plainEnv None) sharedImageClient (params true false true) ()
           {| Scanned := 3; Updated := 3; Failed := 0 |} None ()); by vm_compute.
Defined.

Lemma classify_rewrites_only_Stale_witness :
  ∃ l,
    listings linkedPass.2 = [(l, None)] ∧
    probes linkedPass.2 = l ∧
    length [staleA; B] = length l ∧
    Forall2 (λ c c', c' = set_Stale c (Stale c') ∧
                     (Stale c' = true → EvIsContainerStale c true None ∈ linkedPass.2))
      l [staleA; B].
Proof.
  assert (classify (plainEnv None) linkedClient twoPhase ()
          = (inr {| metric := {| Scanned := 0; Updated := 0; Failed := 0 |};
                    staleCount := 1; staleCheckFailed := 0;
                    containers := [staleA; B] |}, (),
             [EvListContainers [A; B] None;
              EvIsContainerStale A true None; EvVerifyConfiguration A None;
              EvIsContainerStale B false None])) as Hrun by by vm_compute.
  destruct (classify_rewrites_only_Stale (plainEnv None) linkedClient twoPhase ()
              _ _ _ Hrun) as (l & Hli & Hp & Hlen & Hall).
  exists l. simpl in *.
  assert (l = [A; B]) as -> by (by injection Hli).
  split_and!; try done.
  eapply Forall2_impl; [exact Hall|]. intros c c' [? Hin]. split; [done|].
  intros Hs. specialize (Hin Hs). vm_compute.
  repeat (apply elem_of_cons in Hin as [Hin|Hin];
          [rewrite Hin; repeat constructor|]). by apply elem_of_nil in Hin.
Defined.

Lemma Update_verification_gated_witness :
  NoRestart twoPhase = false ∧ MonitorOnly twoPhase = false ∧ IsMonitorOnly A = false ∧
  EvIsContainerStale A true None ∈ linkedPass.2.
Proof.
  apply (Update_verification_gated (plainEnv None) linkedClient twoPhase ()
           linkedPass.1.1 () linkedPass.2 A None).
  - by vm_compute.
  - vm_compute. do 2 apply list_elem_of_further. apply list_elem_of_here.
Defined.

Lemma Update_no_restart_witness :
  starts noRestartPass.2 = [] ∧ postUpdates noRestartPass.2 = [] ∧
  (∀ c e, EvVerifyConfiguration c e ∉ noRestartPass.2).
Proof.
  apply (Update_no_restart (plainEnv None) staleClient noRestartWithCleanup ()
           noRestartPass.1.1 ()); by vm_compute.
Defined.

Lemma Update_monitor_only_pass_witness :
  Forall (λ ev, isAction ev = false) watchingPass.2 ∧
  (∀ c e, EvVerifyConfiguration c e ∉ watchingPass.2) ∧
  (∀ m, watchingPass.1.1.1 = Some m →
        ∃ st w1 tr1,
          classify (plainEnv None) staleClient monitorOnly () = (inr st, w1, tr1) ∧
          Updated m = staleCount st ∧ Failed m = staleCheckFailed st).
Proof.
  apply (Update_monitor_only_pass (plainEnv None) staleClient monitorOnly ()
           watchingPass.1.1 ()); by vm_compute.
Defined.

Lemma Update_list_error_calls_nothing_witness :
  unlistedPass.2
  = (if LifecycleHooks twoPhase then [EvPreChecks] else [])
    ++ [EvListContainers [] (Some (Err "no daemon"))].
Proof.
  apply (Update_list_error_calls_nothing (plainEnv None) unlistableClient twoPhase ()
           unlistedPass.1.1 ()).
  - by vm_compute.
  - vm_compute. apply list_elem_of_here.
Defined.

Lemma restartStaleContainer_rename_failure_witness :
  @None error = None ∧
  ∃ newName e, [EvRenameContainer self "renamed" (Some (Err "name in use"))]
               = [EvRenameContainer self newName (Some e)].
Proof.
  apply (restartStaleContainer_rename_failure (plainEnv None) self noRenameClient
           twoPhase () None ()).
  - by vm_compute.
  - apply Exists_cons_hd. by eexists _, _.
Defined.

Lemma stopStaleContainer_hook_failure_witness :
  [EvPreUpdate staleA (Some (Err "hook failed"))]
  = [EvPreUpdate staleA (Some (Err "hook failed"))] ∧
  LifecycleHooks withHooks = true ∧ is_Some (Some (Err "hook failed")).
Proof.
  apply (stopStaleContainer_hook_failure failingHookEnv staleA staleClient withHooks ()
           (Some (Err "hook failed")) ()).
  - by vm_compute.
  - apply list_elem_of_here.
Defined.

End actions_more.

(** ** More guarantees of the trigger *)

Module update_more.
Import CountFacts update update_facts Requests Racing.

Section Handler.
Context {World : Type} (decode : string → error + UpdateRequestBody).

Implicit Types (g : Globals) (t : @Thread World) (world : World) (c : Chan).

(** X15.  A request that decodes and finds a token in the gate.  The update
    function is called once, with the request's two tags under the keys
    [aidriver] and [daemon]; whether it returns or panics, the token goes
    back to the end of the gate's queue; nothing is written to the
    response. *)
Theorem Handle_runs_and_returns_the_token (handle : Handler) (w0 : Response)
    reqBody urb g world ch c v rest :
  decode reqBody = inr urb →
  lock g = Some ch → chans g !! ch = Some c →
  buf c = v :: rest → length (buf c) ≤ cap c →
  ∃ tags : gmap string string,
    tags !! "aidriver" = Some (AiDriverTag urb) ∧
    tags !! "daemon" = Some (DaemonTag urb) ∧
    dom tags = {["aidriver"; "daemon"]} ∧
    Handle decode handle w0 reqBody (g, world)
    = ({| handler := handle; w := w0;
          pc := Done (match (fn handle tags world).1 with
                      | Returned => Ran
                      | Panicked => PanickedIn
                      end) |},
       ({| chans := <[ch := {| cap := cap c; buf := rest ++ [v] |}]> (chans g);
           lock := lock g |},
        (fn handle tags world).2)).
Proof.
  intros Hd Hlock Hc Hbuf Hcap.
  exists (<["daemon" := DaemonTag urb]> (<["aidriver" := AiDriverTag urb]> ∅)).
  split_and!.
  - by rewrite lookup_insert_ne, lookup_insert_eq.
  - by rewrite lookup_insert_eq.
  - rewrite !dom_insert_L, dom_empty_L. set_solver.
  - unfold Handle. simpl. rewrite Hd. simpl. rewrite Hlock. simpl.
    rewrite (tryRecv_spec ch g c v rest Hc Hbuf). simpl.
    destruct (fn handle _ world) as [o world'] eqn:Hfn. simpl. rewrite Hlock. simpl.
    assert (ch < length (chans g)) as Hlt by by eapply lookup_lt_Some.
    unfold trySend. simpl. rewrite list_lookup_insert_eq by done. simpl.
    rewrite Hbuf in Hcap. simpl in Hcap. rewrite decide_True by lia. simpl.
    by rewrite list_insert_insert_eq.
Qed.

(** X16.  A request that decodes and finds no token in the gate (the gate
    is empty, or [lock] is nil because [New] was never called) is
    dropped: the update function is not called, the gate and the world
    are as before, and nothing is written to the response. *)
Theorem Handle_skips_on_a_busy_gate (handle : Handler) (w0 : Response)
    reqBody urb g world :
  decode reqBody = inr urb →
  tokens g = [] →
  Handle decode handle w0 reqBody (g, world)
  = ({| handler := handle; w := w0; pc := Done Skipped |}, (g, world)).
Proof.
  intros Hd Htok. unfold Handle. simpl. rewrite Hd. simpl.
  assert (lock g ≫= (λ ch, tryRecv ch g) = None) as ->; [|done].
  unfold tokens in Htok. destruct (lock g) as [ch|]; [|done]. simpl in *.
  unfold tryRecv. destruct (chans g !! ch) as [c|]; [|done]. simpl.
  by rewrite Htok.
Qed.

(** X17.  [New] without a channel while a pass is running.  The deferred
    send goes to whatever [lock] refers to when it runs; that is now the
    new gate, which is full, so the invocation that holds the old token
    cannot give it back and has to wait, while the new gate lets the next
    invocation in. *)
Theorem New_during_a_pass (updateFn : gmap string string → World → Outcome * World)
    g t v o t2 tags world :
  pc t = Releasing v o → pc t2 = AtSelect tags →
  ∃ h g',
    New updateFn None g = Some (h, g') ∧
    step1 decode t (g', world) = None ∧
    ∃ g'', step1 decode t2 (g', world)
           = Some (at_ t2 (Running true tags), (g'', world)).
Proof.
  intros Hpc Hpc2. unfold New. simpl. unfold trySend at 1. simpl.
  rewrite lookup_app_r by done. rewrite Nat.sub_diag. simpl.
  assert (<[length (chans g) := {| cap := 1; buf := [true] |}]>
            (chans g ++ [{| cap := 1; buf := [] |}])
          = chans g ++ [{| cap := 1; buf := [true] |}]) as Hins.
  { rewrite <- (Nat.add_0_r (length (chans g))) at 1. by rewrite insert_app_r. }
  rewrite Hins. eexists _, _. split; [done|].
  assert ((chans g ++ [{| cap := 1; buf := [true] |}]) !! length (chans g)
          = Some {| cap := 1; buf := [true] |}) as Hlook.
  { rewrite lookup_app_r by done. by rewrite Nat.sub_diag. }
  split.
  - unfold step1. rewrite Hpc. simpl. unfold trySend. simpl. rewrite Hlook. simpl. done.
  - unfold step1. rewrite Hpc2. simpl. unfold tryRecv. simpl. rewrite Hlook. simpl.
    by eexists.
Qed.

End Handler.

(** *** The theorems at concrete requests *)

Lemma Handle_runs_and_returns_the_token_witness :
  ∃ tags : gmap string string,
    tags !! "aidriver" = Some EmptyString ∧
    tags !! "daemon" = Some EmptyString ∧
    dom tags = {["aidriver"; "daemon"]} ∧
    Handle decodeTags theHandler fresh "{}" (idle, 0)
    = ({| handler := theHandler; w := fresh;
          pc := Done (match (fn theHandler tags 0).1 with
                      | Returned => Ran
                      | Panicked => PanickedIn
                      end) |},
       ({| chans := <[0 := {| cap := 1; buf := [] ++ [true] |}]> (chans idle);
           lock := lock idle |},
        (fn theHandler tags 0).2)).
Proof.
  apply (Handle_runs_and_returns_the_token decodeTags theHandler fresh "{}"
           {| AiDriverTag := EmptyString; DaemonTag := EmptyString |} idle 0 0
           {| cap := 1; buf := [true] |} true []); first [reflexivity|simpl; lia].
Defined.

Lemma Handle_skips_on_a_busy_gate_witness :
  Handle decodeTags theHandler fresh "{}" (busy, 0)
  = ({| handler := theHandler; w := fresh; pc := Done Skipped |}, (busy, 0)).
Proof.
  apply (Handle_skips_on_a_busy_gate decodeTags theHandler fresh "{}"
           {| AiDriverTag := EmptyString; DaemonTag := EmptyString |} busy 0);
    reflexivity.
Defined.

Lemma New_during_a_pass_witness :
  ∃ h g',
    New countCalls None busy = Some (h, g') ∧
    step1 decodeTags (at_ arriving (Releasing true Returned)) (g', 0) = None ∧
    ∃ g'', step1 decodeTags (at_ arriving (AtSelect noTags)) (g', 0)
           = Some (at_ (at_ arriving (AtSelect noTags)) (Running true noTags), (g'', 0)).
Proof.
  apply (New_during_a_pass decodeTags countCalls busy
           (at_ arriving (Releasing true Returned)) true Returned
           (at_ arriving (AtSelect noTags)) noTags 0); reflexivity.
Defined.

End update_more.
